(** * SIS epidemic simulation on a contact network (CSN lab 7)

    Shallow embedding of [main.py] and [main_task1.py].

    Conventions of the embedding.
    - A networkx graph is a record of its node list ([G.nodes()], in
      iteration order) and its adjacency query ([G.neighbors(node)]).
    - An infection state is a Python list of node identifiers; membership
      ([node in infected_nodes]) is decided with the equality of the
      identifiers.
    - Python floats are represented by rationals: comparisons are exact,
      a quotient is the canonical form of the exact quotient (rounding is
      not represented), and a zero divisor raises [ZeroDivisionError].
      What is proved about a quotient is therefore limited to the error
      path, to bounds that rounding to the nearest float preserves, and to
      inputs whose quotients are exactly representable.
    - The global generator behind [random.random()] is an infinite
      sequence of draws together with the index of the next draw; the
      index is threaded through every call by the [Rand] monad.
    - Console output and plotting are left out, except the verdict line
      of [check_threshold], which is its only observable result. *)

From Stdlib Require Import List QArith Lia Bool Arith String.
Import ListNotations.
Open Scope Q_scope.

(** ** Exceptions and fallible results *)

Inductive exn : Type :=
| ZeroDivisionError
| ValueError
| External (name : string).

Inductive result (A : Type) : Type :=
| Ok (a : A)
| Raise (e : exn).
Arguments Ok {A} a.
Arguments Raise {A} e.

Definition rbind {A B : Type} (r : result A) (f : A -> result B) : result B :=
  match r with
  | Ok a => f a
  | Raise e => Raise e
  end.

Notation "'try' x <- r ; k" := (rbind r (fun x => k))
  (at level 61, x name, r at next level, right associativity).

(** ** Numbers *)

(** Strict comparison of two floats, [x < y]. *)
Definition Qltb (x y : Q) : bool := negb (Qle_bool y x).

(** Python's [x / y]. *)
Definition truediv (x y : Q) : result Q :=
  if Qeq_bool y 0 then Raise ZeroDivisionError else Ok (Qred (x / y)).

Arguments truediv : simpl never.

(** [len(l)] as a number. *)
Definition len {A : Type} (l : list A) : Q := inject_Z (Z.of_nat (List.length l)).

(** ** The random source *)

Definition RandomSource : Type := nat -> Q.

(** [random.random()] returns a float in the half-open interval [0, 1). *)
Definition valid_source (rs : RandomSource) : Prop :=
  forall k : nat, 0 <= rs k /\ rs k < 1.

Definition Rand (A : Type) : Type := RandomSource -> nat -> A * nat.

Definition ret {A : Type} (a : A) : Rand A := fun _ k => (a, k).

Definition bind {A B : Type} (m : Rand A) (f : A -> Rand B) : Rand B :=
  fun rs k => let (a, k') := m rs k in f a rs k'.

Notation "x <- m ;; k" := (bind m (fun x => k))
  (at level 61, m at next level, right associativity).

Definition random : Rand Q := fun rs k => (rs k, S k).

(** ** The line printed by [check_threshold] *)

Inductive verdict : Type :=
| Epidemic_occurs
| No_epidemic_occurs.

(** ** Graphs and membership *)

Class EqDec (A : Type) : Type :=
  eq_dec : forall x y : A, {x = y} + {x <> y}.

#[export] Instance nat_EqDec : EqDec nat := Nat.eq_dec.

Record Graph (node : Type) : Type := {
  nodes : list node;
  neighbors : node -> list node
}.
Arguments nodes {node} g.
Arguments neighbors {node} g n.

(** [x in l] on a Python list. *)
Definition mem {A : Type} `{EqDec A} (x : A) (l : list A) : bool :=
  if in_dec eq_dec x l then true else false.

(** [max(items, key=...)]: the first item whose key is maximal. *)
Fixpoint max_by {A : Type} (key : A -> Q) (best : A) (l : list A) : A :=
  match l with
  | [] => best
  | x :: rest => max_by key (if Qltb (key best) (key x) then x else best) rest
  end.

(** ** Initial infection (identical text in both files) *)

Section Initial.
Context {node : Type}.

Fixpoint initial_loop (p0 : Q) (ns infected_nodes : list node)
  : Rand (list node) :=
  match ns with
  | [] => ret infected_nodes
  | n :: rest =>
      x <- random ;;
      initial_loop p0 rest
        (if Qltb x p0 then infected_nodes ++ [n] else infected_nodes)
  end.

Definition set_initial_infected (G : Graph node) (p0 : Q) : Rand (list node) :=
  initial_loop p0 (nodes G) [].
End Initial.

(** ** main_task1.py *)

Module Task1.
Section Engine.
Context {node : Type} `{EqDec node}.
Variable eigenvector_centrality :
  Graph node -> option nat -> result (list (node * Q)).

(** The inner loop over [G.neighbors(node)] of a susceptible node; it
    stops ([break]) at the first successful transmission. *)
Fixpoint exposed (infected_nodes : list node) (beta : Q) (nbrs : list node)
  : Rand bool :=
  match nbrs with
  | [] => ret false
  | neighbor :: rest =>
      if mem neighbor infected_nodes then
        x <- random ;;
        if Qltb x beta then ret true
        else exposed infected_nodes beta rest
      else exposed infected_nodes beta rest
  end.

(** The loop over [G.nodes()] (lines 55-68): an infected node is kept when
    its draw exceeds [gamma]; a susceptible node is appended when the
    inner loop reports a hit. *)
Fixpoint update_loop (G : Graph node) (infected_nodes : list node)
  (beta gamma : Q) (ns new_infected_nodes : list node) : Rand (list node) :=
  match ns with
  | [] => ret new_infected_nodes
  | n :: rest =>
      if mem n infected_nodes then
        x <- random ;;
        update_loop G infected_nodes beta gamma rest
          (if Qltb gamma x then new_infected_nodes ++ [n]
           else new_infected_nodes)
      else if negb (mem n infected_nodes) then
        hit <- exposed infected_nodes beta (neighbors G n) ;;
        update_loop G infected_nodes beta gamma rest
          (if hit then new_infected_nodes ++ [n] else new_infected_nodes)
      else update_loop G infected_nodes beta gamma rest new_infected_nodes
  end.

(** Returns the new list and [len(new_infected_nodes) / len(G)]. *)
Definition update_status (G : Graph node) (infected_nodes : list node)
  (beta gamma : Q) : Rand (result (list node * Q)) :=
  new_infected_nodes <- update_loop G infected_nodes beta gamma (nodes G) [] ;;
  ret (try p <- truediv (len new_infected_nodes) (len (nodes G)) ;
       Ok (new_infected_nodes, p)).

(** The [for t in range(T)] loop of [simulate_spread], for the
    [max(T, 0)] values that [range(T)] yields. *)
Fixpoint spread_loop (G : Graph node) (beta gamma : Q) (T : nat)
  (infected_nodes : list node) (proportion_infected : list Q)
  : Rand (result (list node * list Q)) :=
  match T with
  | O => ret (Ok (infected_nodes, proportion_infected))
  | S T' =>
      r <- update_status G infected_nodes beta gamma ;;
      match r with
      | Raise e => ret (Raise e)
      | Ok (infected_nodes', p) =>
          spread_loop G beta gamma T' infected_nodes'
            (proportion_infected ++ [p])
      end
  end.

Definition simulate_spread (G : Graph node) (infected_nodes : list node)
  (beta gamma : Q) (T : Z) : Rand (result (list Q * Q * node)) :=
  r <- spread_loop G beta gamma (Z.to_nat T) infected_nodes [] ;;
  ret (try st <- r ;
       try eigen_centrality <- eigenvector_centrality G (Some 600%nat) ;
       match eigen_centrality with
       | [] => Raise ValueError
       | item :: items =>
           let best := max_by snd item items in
           Ok (snd st, snd best, fst best)
       end).
End Engine.

(** The verdict line printed by [check_threshold] (lines 148-158), or the
    error of the first division by zero. The three quotients are exact
    here; the program rounds each of them to the nearest float. *)
Definition check_threshold (beta gamma max_eigen : Q) : result verdict :=
  try beta_over_gamma <- truediv beta gamma ;
  try threshold <- truediv 1 max_eigen ;
  try bound <- truediv 1 threshold ;
  Ok (if Qltb bound beta_over_gamma then Epidemic_occurs
      else No_epidemic_occurs).
End Task1.

(** ** main.py *)

Module Main.
Section Engine.
Context {node : Type} `{EqDec node}.
Variable eigenvector_centrality :
  Graph node -> option nat -> result (list (node * Q)).

(** The inner loop over [G.neighbors(node)] of an infected node that did
    not recover: every susceptible neighbour gets its own trial. *)
Fixpoint transmit (infected_nodes : list node) (beta : Q)
  (nbrs new_infected_nodes : list node) : Rand (list node) :=
  match nbrs with
  | [] => ret new_infected_nodes
  | neighbor :: rest =>
      if negb (mem neighbor infected_nodes) then
        x <- random ;;
        transmit infected_nodes beta rest
          (if Qltb x beta then new_infected_nodes ++ [neighbor]
           else new_infected_nodes)
      else transmit infected_nodes beta rest new_infected_nodes
  end.

(** The loop over [G.nodes()] (lines 55-70): an infected node either
    recovers ([continue]) or runs the transmission loop; a susceptible node
    is appended when its own draw is below [beta]. *)
Fixpoint update_loop (G : Graph node) (infected_nodes : list node)
  (beta gamma : Q) (ns new_infected_nodes : list node) : Rand (list node) :=
  match ns with
  | [] => ret new_infected_nodes
  | n :: rest =>
      if mem n infected_nodes then
        x <- random ;;
        if Qltb x gamma then
          update_loop G infected_nodes beta gamma rest new_infected_nodes
        else
          new' <- transmit infected_nodes beta (neighbors G n)
                    new_infected_nodes ;;
          update_loop G infected_nodes beta gamma rest new'
      else
        x <- random ;;
        update_loop G infected_nodes beta gamma rest
          (if Qltb x beta then new_infected_nodes ++ [n]
           else new_infected_nodes)
  end.

(** Returns the new list and [len(new_infected_nodes) / len(G)]. *)
Definition update_status (G : Graph node) (infected_nodes : list node)
  (beta gamma : Q) : Rand (result (list node * Q)) :=
  new_infected_nodes <- update_loop G infected_nodes beta gamma (nodes G) [] ;;
  ret (try p <- truediv (len new_infected_nodes) (len (nodes G)) ;
       Ok (new_infected_nodes, p)).

(** The [for t in range(T)] loop of [simulate_spread], for the
    [max(T, 0)] values that [range(T)] yields. *)
Fixpoint spread_loop (G : Graph node) (beta gamma : Q) (T : nat)
  (infected_nodes : list node) (proportion_infected : list Q)
  : Rand (result (list node * list Q)) :=
  match T with
  | O => ret (Ok (infected_nodes, proportion_infected))
  | S T' =>
      r <- update_status G infected_nodes beta gamma ;;
      match r with
      | Raise e => ret (Raise e)
      | Ok (infected_nodes', p) =>
          spread_loop G beta gamma T' infected_nodes'
            (proportion_infected ++ [p])
      end
  end.

Definition simulate_spread (G : Graph node) (G_type : string)
  (infected_nodes : list node) (beta gamma : Q) (T : Z)
  : Rand (result (list Q * Q * node)) :=
  r <- spread_loop G beta gamma (Z.to_nat T) infected_nodes [] ;;
  ret (try st <- r ;
       try eigen_centrality <-
         (if (G_type =? "lattice")%string || (G_type =? "star")%string
          then eigenvector_centrality G (Some 600%nat)
          else eigenvector_centrality G None) ;
       match eigen_centrality with
       | [] => Raise ValueError
       | item :: items =>
           let best := max_by snd item items in
           Ok (snd st, snd best, fst best)
       end).
End Engine.

(** The verdict line printed by [check_threshold] (lines 148-162), or the
    error of the first division by zero. The two quotients are exact here;
    the program rounds each of them to the nearest float. *)
Definition check_threshold (beta gamma max_eigen : Q)
  : result verdict :=
  try beta_over_gamma <- truediv beta gamma ;
  try threshold <- truediv 1 max_eigen ;
  Ok (if Qltb threshold beta_over_gamma then Epidemic_occurs
      else No_epidemic_occurs).

End Main.

(** ** Example graphs *)

(** [nx.star_graph(4)]: hub 0 and the leaves 1..4. *)
Definition star4 : Graph nat := {|
  nodes := [0; 1; 2; 3; 4]%nat;
  neighbors := fun n => match n with
                        | O => [1; 2; 3; 4]%nat
                        | _ => [0%nat]
                        end
|}.

(** [nx.complete_graph(5)]. *)
Definition complete5 : Graph nat := {|
  nodes := seq 0 5;
  neighbors := fun n => filter (fun m => negb (Nat.eqb m n)) (seq 0 5)
|}.

#[export] Instance prod_EqDec {A B : Type} `{EqDec A} `{EqDec B}
  : EqDec (A * B).
Proof.
  intros [a b] [a' b'].
  destruct (eq_dec a a') as [-> | Ha]; [ | right; congruence ].
  destruct (eq_dec b b') as [-> | Hb]; [ left; reflexivity | right; congruence ].
Defined.

(** [nx.grid_2d_graph(2, 2)]: the 2 x 2 lattice, a cycle on four nodes. *)
Definition lattice2 : Graph (nat * nat) := {|
  nodes := [(0, 0); (0, 1); (1, 0); (1, 1)]%nat;
  neighbors := fun n => match n with
                        | (O, O) => [(1, 0); (0, 1)]%nat
                        | (O, _) => [(1, 1); (0, 0)]%nat
                        | (_, O) => [(0, 0); (1, 1)]%nat
                        | _ => [(0, 1); (1, 0)]%nat
                        end
|}.

(** A source whose every draw is the same value. *)
Definition constant_source (x : Q) : RandomSource := fun _ => x.

(** A stand-in for the outcome of [nx.eigenvector_centrality] in examples:
    every node gets the score [c]. *)
Definition uniform_centrality {node : Type} (c : Q)
  : Graph node -> option nat -> result (list (node * Q)) :=
  fun G _ => Ok (map (fun n => (n, c)) (nodes G)).

(** The closed interval [0, 1]. *)
Definition unit_interval (p : Q) : Prop := 0 <= p /\ p <= 1.

(** Unfolds the monad operations of a run. *)
Ltac run := unfold bind, ret, random in *; simpl in *.

(** * Properties *)

(** ** Comparisons, membership, division *)

Lemma Qltb_lt (x y : Q) : Qltb x y = true <-> x < y.
Proof.
  unfold Qltb. rewrite negb_true_iff.
  split; intro Hxy.
  - apply Qnot_le_lt. intro Hle. apply Qle_bool_iff in Hle. congruence.
  - apply not_true_is_false. intro Hle. apply Qle_bool_iff in Hle.
    exact (Qlt_not_le _ _ Hxy Hle).
Qed.

Lemma Qltb_ge (x y : Q) : Qltb x y = false <-> y <= x.
Proof.
  unfold Qltb. rewrite negb_false_iff. apply Qle_bool_iff.
Qed.

Lemma mem_In {A : Type} `{EqDec A} (x : A) (l : list A) :
  mem x l = true <-> In x l.
Proof.
  unfold mem. destruct (in_dec eq_dec x l); split; auto; discriminate.
Qed.

Lemma mem_not_In {A : Type} `{EqDec A} (x : A) (l : list A) :
  mem x l = false <-> ~ In x l.
Proof.
  unfold mem. destruct (in_dec eq_dec x l); split; auto; try discriminate.
  intro Hn. contradiction.
Qed.

Lemma constant_source_valid (x : Q) :
  0 <= x -> x < 1 -> valid_source (constant_source x).
Proof. intros H0 H1 k. split; assumption. Qed.

Lemma valid_not_below_zero (rs : RandomSource) (k : nat) :
  valid_source rs -> Qltb (rs k) 0 = false.
Proof. intro Hv. apply Qltb_ge. apply Hv. Qed.

Lemma valid_below_one (rs : RandomSource) (k : nat) :
  valid_source rs -> Qltb (rs k) 1 = true.
Proof. intro Hv. apply Qltb_lt. apply Hv. Qed.

Lemma len_pos {A : Type} (l : list A) : l <> [] -> Qeq_bool (len l) 0 = false.
Proof.
  intro Hne. destruct l as [ | a l]; [ congruence | ].
  apply not_true_is_false. intro Heq. apply Qeq_bool_eq in Heq.
  unfold len, Qeq in Heq. simpl in Heq. lia.
Qed.

Lemma truediv_zero (y : Q) : Qeq_bool y 0 = false -> truediv 0 y = Ok 0.
Proof.
  intro Hy. unfold truediv. rewrite Hy. reflexivity.
Qed.

Lemma truediv_ok (x y : Q) :
  Qeq_bool y 0 = false -> truediv x y = Ok (Qred (x / y)).
Proof. intro Hy. unfold truediv. rewrite Hy. reflexivity. Qed.

Lemma truediv_inv (x y p : Q) :
  truediv x y = Ok p -> Qeq_bool y 0 = false /\ p = Qred (x / y).
Proof.
  unfold truediv. destruct (Qeq_bool y 0); [ discriminate | ].
  intro Hp. split; [ reflexivity | ].
  apply (f_equal (fun r => match r with Ok a => a | Raise _ => p end)) in Hp.
  symmetry. exact Hp.
Qed.

Lemma truediv_by_zero (x : Q) : truediv x 0 = Raise ZeroDivisionError.
Proof. reflexivity. Qed.

(** ** The initial infection *)

Lemma initial_loop_none {node : Type} (rs : RandomSource) :
  valid_source rs ->
  forall (ns acc : list node) (k : nat),
    initial_loop 0 ns acc rs k = (acc, (k + List.length ns)%nat).
Proof.
  intros Hv ns. induction ns as [ | n rest IH]; intros acc k; simpl.
  - unfold ret. f_equal. lia.
  - unfold bind, random. rewrite (valid_not_below_zero rs k Hv).
    rewrite IH. f_equal. lia.
Qed.

Lemma initial_loop_all {node : Type} (rs : RandomSource) :
  valid_source rs ->
  forall (ns acc : list node) (k : nat),
    initial_loop 1 ns acc rs k = (acc ++ ns, (k + List.length ns)%nat).
Proof.
  intros Hv ns. induction ns as [ | n rest IH]; intros acc k; simpl.
  - unfold ret. rewrite app_nil_r. f_equal. lia.
  - unfold bind, random. rewrite (valid_below_one rs k Hv).
    rewrite IH, <- app_assoc. simpl. f_equal. lia.
Qed.

(** C8. For every graph and every random source (draws in [0, 1)):
    [set_initial_infected] with [p0 = 0] returns the empty infection
    state, and with [p0 = 1] returns the full node list of the graph; one
    draw is consumed per node in both cases. *)
Theorem C8_initial_infected_extremes {node : Type}
  (G : Graph node) (rs : RandomSource) (k : nat) :
  valid_source rs ->
  set_initial_infected G 0 rs k = ([], (k + List.length (nodes G))%nat) /\
  set_initial_infected G 1 rs k = (nodes G, (k + List.length (nodes G))%nat).
Proof.
  intro Hv. unfold set_initial_infected. split.
  - apply initial_loop_none; assumption.
  - rewrite initial_loop_all by assumption. reflexivity.
Qed.

Lemma C8_initial_infected_extremes_witness :
  valid_source (constant_source (1 # 2)) /\
  set_initial_infected star4 0 (constant_source (1 # 2)) 0%nat = ([], 5%nat) /\
  set_initial_infected star4 1 (constant_source (1 # 2)) 0%nat
    = ([0; 1; 2; 3; 4]%nat, 5%nat).
Proof.
  assert (Hv : valid_source (constant_source (1 # 2))).
  { apply constant_source_valid; unfold Qle, Qlt; simpl; lia. }
  split; [ exact Hv | ].
  exact (C8_initial_infected_extremes star4 (constant_source (1 # 2)) 0%nat Hv).
Defined.

(** ** The transition engine of main_task1.py *)

Section Task1_facts.
Context {node : Type} `{EqDec node}.
Variables (G : Graph node) (infected_nodes : list node) (beta gamma : Q).
Variable rs : RandomSource.

Local Abbreviation loop := (Task1.update_loop G infected_nodes beta gamma).

(** The accumulator is only ever extended on the right. *)
Lemma Task1_update_loop_acc (ns new : list node) (k : nat) :
  loop ns new rs k = (new ++ fst (loop ns [] rs k), snd (loop ns [] rs k)).
Proof.
  revert new k.
  induction ns as [ | n rest IH]; intros new k; simpl.
  - run. rewrite app_nil_r. reflexivity.
  - destruct (mem n infected_nodes); simpl.
    + run. rewrite IH. rewrite (IH (if Qltb gamma (rs k) then _ else _)).
      destruct (Qltb gamma (rs k)); simpl;
        rewrite <- ?app_assoc; reflexivity.
    + run. destruct (Task1.exposed infected_nodes beta (neighbors G n) rs k)
        as [hit k1].
      rewrite IH. rewrite (IH (if hit then _ else _)).
      destruct hit; simpl; rewrite <- ?app_assoc; reflexivity.
Qed.

Lemma Task1_update_loop_app (pre post new : list node) (k : nat) :
  loop (pre ++ post) new rs k
  = loop post (fst (loop pre new rs k)) rs (snd (loop pre new rs k)).
Proof.
  revert new k.
  induction pre as [ | n rest IH]; intros new k; simpl.
  - reflexivity.
  - destruct (mem n infected_nodes); simpl.
    + run. apply IH.
    + run. destruct (Task1.exposed infected_nodes beta (neighbors G n) rs k)
        as [hit k1].
      apply IH.
Qed.

(** Only nodes of the traversed list are appended. *)
Lemma Task1_update_loop_In (ns : list node) (k : nat) (x : node) :
  In x (fst (loop ns [] rs k)) -> In x ns.
Proof.
  revert k.
  induction ns as [ | n rest IH]; intros k; simpl.
  - run. tauto.
  - destruct (mem n infected_nodes); simpl; run.
    + rewrite Task1_update_loop_acc. simpl. rewrite in_app_iff.
      intros [Hx | Hx]; [ | right; eapply IH; exact Hx ].
      destruct (Qltb gamma (rs k)); simpl in Hx; tauto.
    + destruct (Task1.exposed infected_nodes beta (neighbors G n) rs k)
        as [hit k1].
      rewrite Task1_update_loop_acc. simpl. rewrite in_app_iff.
      intros [Hx | Hx]; [ | right; eapply IH; exact Hx ].
      destruct hit; simpl in Hx; tauto.
Qed.

(** Each node is appended at most once. *)
Lemma Task1_update_loop_NoDup (ns : list node) (k : nat) :
  NoDup ns -> NoDup (fst (loop ns [] rs k)).
Proof.
  revert k.
  induction ns as [ | n rest IH]; intros k Hnd; simpl.
  - run. constructor.
  - inversion Hnd as [ | ? ? Hn Hrest]; subst.
    assert (Hstep : forall (b : bool) (k1 : nat),
               NoDup ((if b then [] ++ [n] else [])
                      ++ fst (Task1.update_loop G infected_nodes beta gamma
                                rest [] rs k1))).
    { intros b k1. destruct b; simpl; [ | apply IH; assumption ].
      constructor; [ | apply IH; assumption ].
      intro Hin. apply Hn. eapply Task1_update_loop_In. exact Hin. }
    destruct (mem n infected_nodes); simpl; run.
    + rewrite Task1_update_loop_acc. simpl. apply Hstep.
    + destruct (Task1.exposed infected_nodes beta (neighbors G n) rs k)
        as [hit k1].
      rewrite Task1_update_loop_acc. simpl. apply Hstep.
Qed.

(** With no transmission, only previously infected nodes are kept. *)
Lemma Task1_exposed_beta_zero (nbrs : list node) (k : nat) :
  valid_source rs -> beta = 0 ->
  fst (Task1.exposed infected_nodes beta nbrs rs k) = false.
Proof.
  intros Hv ->. revert k.
  induction nbrs as [ | nb rest IH]; intros k; simpl.
  - reflexivity.
  - destruct (mem nb infected_nodes); simpl; [ | apply IH ].
    run. rewrite (valid_not_below_zero rs k Hv). apply IH.
Qed.

Lemma Task1_update_loop_beta_zero (ns : list node) (k : nat) (x : node) :
  valid_source rs -> beta = 0 ->
  In x (fst (loop ns [] rs k)) -> In x infected_nodes.
Proof.
  intros Hv Hb. revert k.
  induction ns as [ | n rest IH]; intros k; simpl.
  - run. tauto.
  - destruct (mem n infected_nodes) eqn:Hmem; simpl; run.
    + rewrite Task1_update_loop_acc. simpl. rewrite in_app_iff.
      intros [Hx | Hx]; [ | eapply IH; exact Hx ].
      apply mem_In in Hmem.
      destruct (Qltb gamma (rs k)); simpl in Hx; [ | tauto ].
      destruct Hx as [<- | []]. exact Hmem.
    + pose proof (Task1_exposed_beta_zero (neighbors G n) k Hv Hb) as Hexp.
      destruct (Task1.exposed infected_nodes beta (neighbors G n) rs k)
        as [hit k1].
      simpl in Hexp. subst hit. apply IH.
Qed.

(** The infected neighbours of a node, in the order in which
    [G.neighbors] yields them: these are the neighbours that get a
    transmission trial. *)
Local Abbreviation carriers nbrs :=
  (filter (fun nb => mem nb infected_nodes) nbrs).

(** The inner loop reports a hit exactly when one of the trials of the
    infected neighbours succeeds; the trial of the [j]-th infected
    neighbour is draw [k + j]. *)
Lemma Task1_exposed_iff (nbrs : list node) (k : nat) :
  fst (Task1.exposed infected_nodes beta nbrs rs k) = true <->
  exists (j : nat) (nb : node),
    nth_error (carriers nbrs) j = Some nb /\ rs (k + j)%nat < beta.
Proof.
  revert k. induction nbrs as [ | nb rest IH]; intros k; simpl.
  - run. split; [ discriminate | ].
    intros (j & x & Hj & _). destruct j; discriminate.
  - destruct (mem nb infected_nodes); simpl; [ | apply IH ].
    run. destruct (Qltb (rs k) beta) eqn:Hdraw; simpl.
    + split; [ intros _ | reflexivity ].
      exists 0%nat, nb. rewrite Nat.add_0_r. split; [ reflexivity | ].
      apply Qltb_lt. exact Hdraw.
    + rewrite IH. split.
      * intros (j & x & Hj & Hlt). exists (S j), x. split; [ exact Hj | ].
        replace (k + S j)%nat with (S k + j)%nat by lia. exact Hlt.
      * intros (j & x & Hj & Hlt). destruct j as [ | j].
        -- rewrite Nat.add_0_r in Hlt. apply Qltb_lt in Hlt. congruence.
        -- exists j, x. split; [ exact Hj | ].
           replace (S k + j)%nat with (k + S j)%nat by lia. exact Hlt.
Qed.

(** What the loop decides for a node visited when the next draw has
    index [k]. *)
Lemma Task1_update_loop_visit (pre post : list node) (n : node) (k : nat) :
  NoDup (pre ++ n :: post) ->
  let k_n := snd (loop pre [] rs k) in
  In n (fst (loop (pre ++ n :: post) [] rs k)) <->
  (if mem n infected_nodes then Qltb gamma (rs k_n)
   else fst (Task1.exposed infected_nodes beta (neighbors G n) rs k_n))
  = true.
Proof.
  intros Hnd k_n.
  assert (Hpre : ~ In n pre).
  { intro Hin. apply NoDup_remove_2 in Hnd. apply Hnd.
    apply in_or_app. left. exact Hin. }
  assert (Hpost : ~ In n post).
  { intro Hin. apply NoDup_remove_2 in Hnd. apply Hnd.
    apply in_or_app. right. exact Hin. }
  assert (Hleft : ~ In n (fst (loop pre [] rs k))).
  { intro Hin. apply Hpre. eapply Task1_update_loop_In. exact Hin. }
  assert (Hstep : forall (b : bool) (k1 : nat),
             In n (fst (loop post (if b then [] ++ [n] else []) rs k1))
             <-> b = true).
  { intros b k1. rewrite Task1_update_loop_acc. simpl fst.
    rewrite in_app_iff. split.
    - intros [Hin | Hin].
      + destruct b; [ reflexivity | destruct Hin ].
      + exfalso. apply Hpost. eapply Task1_update_loop_In. exact Hin.
    - intros ->. left. left. reflexivity. }
  rewrite Task1_update_loop_app. fold k_n.
  rewrite (Task1_update_loop_acc (n :: post)). simpl fst.
  rewrite in_app_iff. simpl.
  destruct (mem n infected_nodes); simpl; run.
  - rewrite Hstep. tauto.
  - destruct (Task1.exposed infected_nodes beta (neighbors G n) rs k_n)
      as [hit k1].
    simpl. rewrite Hstep. tauto.
Qed.

(** [update_status] returns whenever the graph has a node, and then
    returns the list built by the loop. *)
Lemma Task1_update_status_returns (k : nat) :
  nodes G <> [] ->
  exists p : Q,
    Task1.update_status G infected_nodes beta gamma rs k
    = (Ok (fst (loop (nodes G) [] rs k), p), snd (loop (nodes G) [] rs k))
    /\ p == len (fst (loop (nodes G) [] rs k)) / len (nodes G).
Proof.
  intro Hne. unfold Task1.update_status. run.
  destruct (Task1.update_loop G infected_nodes beta gamma (nodes G) [] rs k)
    as [new k1].
  rewrite (truediv_ok _ _ (len_pos _ Hne)). unfold rbind.
  eexists. split; [ reflexivity | apply Qred_correct ].
Qed.

Lemma Task1_update_status_inv (k k' : nat) (new : list node) (p : Q) :
  Task1.update_status G infected_nodes beta gamma rs k = (Ok (new, p), k') ->
  new = fst (loop (nodes G) [] rs k) /\
  p == len new / len (nodes G) /\ nodes G <> [].
Proof.
  unfold Task1.update_status. run.
  destruct (Task1.update_loop G infected_nodes beta gamma (nodes G) [] rs k)
    as [new1 k1].
  destruct (truediv (len new1) (len (nodes G))) as [p1 | e] eqn:Hdiv;
    unfold rbind; [ | discriminate ].
  intro Heq. injection Heq as -> -> ->.
  apply truediv_inv in Hdiv. destruct Hdiv as [Hz ->].
  split; [ reflexivity | ].
  split; [ apply Qred_correct | ].
  intro Hnil. rewrite Hnil in Hz. discriminate.
Qed.
End Task1_facts.

(** An infected node of the graph is in the new state of main_task1.py
    exactly when its recovery draw exceeds [gamma]; otherwise it has
    recovered and is absent. *)
Lemma Task1_infected_node_recovers_or_stays {node : Type} `{EqDec node}
  (G : Graph node) (infected_nodes : list node) (beta gamma : Q)
  (rs : RandomSource) (k : nat) (pre post : list node) (n : node) :
  NoDup (nodes G) -> nodes G = pre ++ n :: post -> In n infected_nodes ->
  let k_n := snd (Task1.update_loop G infected_nodes beta gamma pre [] rs k) in
  exists (new : list node) (p : Q) (k' : nat),
    Task1.update_status G infected_nodes beta gamma rs k = (Ok (new, p), k') /\
    (gamma < rs k_n -> In n new) /\
    (rs k_n <= gamma -> ~ In n new).
Proof.
  intros Hnd Hsplit Hinf k_n.
  assert (Hne : nodes G <> []).
  { rewrite Hsplit. intro Hnil. destruct pre; discriminate. }
  destruct (Task1_update_status_returns G infected_nodes beta gamma rs k Hne)
    as (p & Hrun & _).
  eexists _, p, _. split; [ exact Hrun | ].
  rewrite Hsplit in Hnd |- *.
  pose proof (Task1_update_loop_visit G infected_nodes beta gamma rs
                pre post n k Hnd) as Hvisit.
  simpl in Hvisit. fold k_n in Hvisit.
  apply mem_In in Hinf. rewrite Hinf in Hvisit.
  split.
  - intro Hlt. apply Hvisit. apply Qltb_lt. exact Hlt.
  - intros Hle Hin. apply Hvisit in Hin. apply Qltb_lt in Hin.
    exact (Qlt_not_le _ _ Hin Hle).
Qed.

(** The new state of main_task1.py lists nodes of the graph, each at most
    once, so it is no longer than the node list. *)
Lemma Task1_new_state_NoDup {node : Type} `{EqDec node}
  (G : Graph node) (infected_nodes : list node) (beta gamma : Q)
  (rs : RandomSource) (k k' : nat) (new : list node) (p : Q) :
  NoDup (nodes G) ->
  Task1.update_status G infected_nodes beta gamma rs k = (Ok (new, p), k') ->
  NoDup new /\ incl new (nodes G)
  /\ (List.length new <= List.length (nodes G))%nat.
Proof.
  intros Hnd Hrun. apply Task1_update_status_inv in Hrun.
  destruct Hrun as (-> & _ & _).
  assert (Hnew : NoDup (fst (Task1.update_loop G infected_nodes beta gamma
                               (nodes G) [] rs k))).
  { apply Task1_update_loop_NoDup. exact Hnd. }
  assert (Hincl : incl (fst (Task1.update_loop G infected_nodes beta gamma
                               (nodes G) [] rs k)) (nodes G)).
  { intros x Hx. eapply Task1_update_loop_In. exact Hx. }
  split; [ exact Hnew | ]. split; [ exact Hincl | ].
  apply NoDup_incl_length; assumption.
Qed.

Lemma fraction_in_unit_interval (a b : nat) (p : Q) :
  (a <= b)%nat -> (0 < b)%nat ->
  p == inject_Z (Z.of_nat a) / inject_Z (Z.of_nat b) ->
  unit_interval p.
Proof.
  intros Hab Hb Hp. unfold unit_interval. rewrite Hp.
  assert (Hbq : 0 < inject_Z (Z.of_nat b)).
  { change 0 with (inject_Z 0). rewrite <- Zlt_Qlt. lia. }
  split.
  - apply Qle_shift_div_l; [ exact Hbq | ].
    rewrite Qmult_0_l. change 0 with (inject_Z 0). rewrite <- Zle_Qle. lia.
  - apply Qle_shift_div_r; [ exact Hbq | ].
    rewrite Qmult_1_l. rewrite <- Zle_Qle. lia.
Qed.

(** Every infected fraction returned by main_task1.py lies in [0, 1]. *)
Lemma Task1_fraction_bounds {node : Type} `{EqDec node}
  (G : Graph node) (infected_nodes : list node) (beta gamma : Q)
  (rs : RandomSource) (k k' : nat) (new : list node) (p : Q) :
  NoDup (nodes G) ->
  Task1.update_status G infected_nodes beta gamma rs k = (Ok (new, p), k') ->
  unit_interval p.
Proof.
  intros Hnd Hrun.
  destruct (Task1_new_state_NoDup G infected_nodes beta gamma rs k k' new p
              Hnd Hrun) as (_ & _ & Hlen).
  apply Task1_update_status_inv in Hrun. destruct Hrun as (_ & Hp & Hne).
  apply (fraction_in_unit_interval (List.length new)
           (List.length (nodes G))); [ exact Hlen | | exact Hp ].
  destruct (nodes G); [ congruence | simpl; lia ].
Qed.

(** The loop of [simulate_spread] in main_task1.py runs all its [T] steps
    on a graph with a node and records only fractions in [0, 1]. *)
Lemma Task1_trajectory_bounds {node : Type} `{EqDec node}
  (G : Graph node) (beta gamma : Q) (rs : RandomSource) :
  NoDup (nodes G) -> nodes G <> [] ->
  forall (T : nat) (infected_nodes : list node) (traj : list Q) (k : nat),
    Forall unit_interval traj ->
    exists (final : list node) (traj' : list Q) (k' : nat),
      Task1.spread_loop G beta gamma T infected_nodes traj rs k
      = (Ok (final, traj'), k')
      /\ Forall unit_interval traj'
      /\ List.length traj' = (List.length traj + T)%nat.
Proof.
  intros Hnd Hne T.
  induction T as [ | T IH]; intros infected_nodes traj k Htraj; simpl.
  - run. exists infected_nodes, traj, k. repeat split; auto.
  - unfold bind.
    destruct (Task1_update_status_returns G infected_nodes beta gamma rs k Hne)
      as (p & Hrun & _).
    rewrite Hrun.
    destruct (IH (fst (Task1.update_loop G infected_nodes beta gamma
                         (nodes G) [] rs k))
                (traj ++ [p])
                (snd (Task1.update_loop G infected_nodes beta gamma
                        (nodes G) [] rs k)))
      as (final & traj' & k' & Hloop & Hall & Hlen).
    { apply Forall_app. split; [ exact Htraj | ].
      constructor; [ | constructor ].
      eapply Task1_fraction_bounds; eassumption. }
    exists final, traj', k'. split; [ exact Hloop | ].
    split; [ exact Hall | ].
    rewrite Hlen, length_app. simpl. lia.
Qed.

(** ** The empty state *)

Lemma Task1_exposed_nil {node : Type} `{EqDec node}
  (beta : Q) (rs : RandomSource) (nbrs : list node) (k : nat) :
  Task1.exposed [] beta nbrs rs k = (false, k).
Proof.
  induction nbrs as [ | nb rest IH]; simpl; [ reflexivity | exact IH ].
Qed.

Lemma Task1_update_loop_nil {node : Type} `{EqDec node}
  (G : Graph node) (beta gamma : Q) (rs : RandomSource)
  (ns new : list node) (k : nat) :
  Task1.update_loop G [] beta gamma ns new rs k = (new, k).
Proof.
  revert new. induction ns as [ | n rest IH]; intros new; simpl.
  - reflexivity.
  - unfold bind. rewrite Task1_exposed_nil. apply IH.
Qed.

(** C6. With transmission requiring an infected neighbour (main_task1.py),
    on every graph with a node, for every [beta], [gamma] and random
    source: [update_status] on the empty infection state returns the empty
    state with infected fraction 0 and consumes no draw, so from an empty
    state every later step of the simulation loop is empty too. *)
Theorem C6_task1_empty_state_absorbing {node : Type} `{EqDec node}
  (G : Graph node) (beta gamma : Q) (rs : RandomSource) (k : nat) :
  nodes G <> [] ->
  Task1.update_status G [] beta gamma rs k = (Ok ([], 0), k) /\
  forall (T : nat) (traj : list Q),
    Task1.spread_loop G beta gamma T [] traj rs k
    = (Ok ([], traj ++ repeat 0 T), k).
Proof.
  intro Hne.
  assert (Hstep : Task1.update_status G [] beta gamma rs k = (Ok ([], 0), k)).
  { unfold Task1.update_status, bind, ret.
    rewrite Task1_update_loop_nil.
    change (len (@nil node)) with 0.
    rewrite (truediv_zero _ (len_pos _ Hne)). reflexivity. }
  split; [ exact Hstep | ].
  intro T. induction T as [ | T IH]; intro traj; simpl.
  - unfold ret. rewrite app_nil_r. reflexivity.
  - unfold bind. rewrite Hstep. rewrite IH, <- app_assoc. reflexivity.
Qed.

Lemma C6_task1_empty_state_absorbing_witness :
  Task1.update_status star4 [] (1 # 2) (1 # 2) (constant_source (1 # 4)) 0%nat
  = (Ok ([], 0), 0%nat) /\
  forall (T : nat) (traj : list Q),
    Task1.spread_loop star4 (1 # 2) (1 # 2) T [] traj
      (constant_source (1 # 4)) 0%nat
    = (Ok ([], traj ++ repeat 0 T), 0%nat).
Proof.
  apply (C6_task1_empty_state_absorbing star4 (1 # 2) (1 # 2)
           (constant_source (1 # 4)) 0%nat).
  simpl. discriminate.
Defined.

(** ** The transition engine of main.py *)

Section Main_facts.
Context {node : Type} `{EqDec node}.
Variables (G : Graph node) (infected_nodes : list node) (beta gamma : Q).
Variable rs : RandomSource.

Local Abbreviation loop := (Main.update_loop G infected_nodes beta gamma).

(** Transmission only ever appends susceptible neighbours. *)
Lemma Main_transmit_In (nbrs new : list node) (k : nat) (x : node) :
  In x (fst (Main.transmit infected_nodes beta nbrs new rs k)) ->
  In x new \/ (In x nbrs /\ ~ In x infected_nodes).
Proof.
  revert new k. induction nbrs as [ | nb rest IH]; intros new k; simpl.
  - run. tauto.
  - destruct (mem nb infected_nodes) eqn:Hmem; simpl.
    + intro Hx. apply IH in Hx. tauto.
    + run. intro Hx. apply IH in Hx. apply mem_not_In in Hmem.
      destruct Hx as [Hx | Hx]; [ | tauto ].
      destruct (Qltb (rs k) beta); [ | tauto ].
      apply in_app_or in Hx. destruct Hx as [Hx | [<- | []]]; tauto.
Qed.

(** Nothing the loop appends was infected at step t-1. *)
Lemma Main_update_loop_In (ns new : list node) (k : nat) (x : node) :
  In x (fst (loop ns new rs k)) -> In x new \/ ~ In x infected_nodes.
Proof.
  revert new k. induction ns as [ | n rest IH]; intros new k; simpl.
  - run. tauto.
  - destruct (mem n infected_nodes) eqn:Hmem; simpl; run.
    + destruct (Qltb (rs k) gamma); [ apply IH | ].
      destruct (Main.transmit infected_nodes beta (neighbors G n) new rs
                  (S k)) as [new' k1] eqn:Htr.
      intro Hx. apply IH in Hx. destruct Hx as [Hx | Hx]; [ | tauto ].
      pose proof (Main_transmit_In (neighbors G n) new (S k) x) as Hin.
      rewrite Htr in Hin. simpl in Hin. apply Hin in Hx. tauto.
    + intro Hx. apply IH in Hx. apply mem_not_In in Hmem.
      destruct Hx as [Hx | Hx]; [ | tauto ].
      destruct (Qltb (rs k) beta); [ | tauto ].
      apply in_app_or in Hx. destruct Hx as [Hx | [<- | []]]; tauto.
Qed.

(** The accumulators are only ever extended on the right. *)
Lemma Main_transmit_acc (nbrs new : list node) (k : nat) :
  Main.transmit infected_nodes beta nbrs new rs k
  = (new ++ fst (Main.transmit infected_nodes beta nbrs [] rs k),
     snd (Main.transmit infected_nodes beta nbrs [] rs k)).
Proof.
  revert new k. induction nbrs as [ | nb rest IH]; intros new k; simpl.
  - run. rewrite app_nil_r. reflexivity.
  - destruct (mem nb infected_nodes); simpl; [ apply IH | ].
    run. rewrite IH. rewrite (IH (if Qltb (rs k) beta then _ else _)).
    destruct (Qltb (rs k) beta); simpl; rewrite <- ?app_assoc; reflexivity.
Qed.

Lemma Main_update_loop_acc (ns new : list node) (k : nat) :
  loop ns new rs k = (new ++ fst (loop ns [] rs k), snd (loop ns [] rs k)).
Proof.
  revert new k. induction ns as [ | n rest IH]; intros new k; simpl.
  - run. rewrite app_nil_r. reflexivity.
  - destruct (mem n infected_nodes); simpl; run.
    + destruct (Qltb (rs k) gamma); [ apply IH | ].
      rewrite (Main_transmit_acc (neighbors G n) new (S k)).
      destruct (Main.transmit infected_nodes beta (neighbors G n) [] rs
                  (S k)) as [sent k1].
      simpl. rewrite IH. rewrite (IH sent).
      simpl. rewrite <- app_assoc. reflexivity.
    + rewrite IH. rewrite (IH (if Qltb (rs k) beta then _ else _)).
      destruct (Qltb (rs k) beta); simpl;
        rewrite <- ?app_assoc; reflexivity.
Qed.

Lemma Main_update_loop_app (pre post new : list node) (k : nat) :
  loop (pre ++ post) new rs k
  = loop post (fst (loop pre new rs k)) rs (snd (loop pre new rs k)).
Proof.
  revert new k. induction pre as [ | n rest IH]; intros new k; simpl.
  - reflexivity.
  - destruct (mem n infected_nodes); simpl; run.
    + destruct (Qltb (rs k) gamma); [ apply IH | ].
      destruct (Main.transmit infected_nodes beta (neighbors G n) new rs
                  (S k)) as [new' k1].
      apply IH.
    + apply IH.
Qed.

(** A susceptible node whose own draw is below [beta] is appended,
    whatever its neighbourhood. *)
Lemma Main_update_loop_spontaneous
  (pre post : list node) (n : node) (k : nat) :
  ~ In n infected_nodes ->
  rs (snd (loop pre [] rs k)) < beta ->
  In n (fst (loop (pre ++ n :: post) [] rs k)).
Proof.
  intros Hsus Hdraw. rewrite Main_update_loop_app. simpl.
  apply mem_not_In in Hsus. rewrite Hsus. run.
  apply Qltb_lt in Hdraw. rewrite Hdraw.
  rewrite Main_update_loop_acc. simpl.
  apply in_or_app. left. apply in_or_app. right. left. reflexivity.
Qed.

(** With [beta = 0] nothing is appended at all. *)
Lemma Main_transmit_beta_zero (nbrs new : list node) (k : nat) :
  valid_source rs -> beta = 0 ->
  fst (Main.transmit infected_nodes beta nbrs new rs k) = new.
Proof.
  intros Hv ->. revert new k.
  induction nbrs as [ | nb rest IH]; intros new k; simpl.
  - reflexivity.
  - destruct (mem nb infected_nodes); simpl; [ apply IH | ].
    run. rewrite (valid_not_below_zero rs k Hv). apply IH.
Qed.

Lemma Main_update_loop_beta_zero (ns new : list node) (k : nat) :
  valid_source rs -> beta = 0 ->
  fst (loop ns new rs k) = new.
Proof.
  intros Hv Hb. revert new k.
  induction ns as [ | n rest IH]; intros new k; simpl.
  - reflexivity.
  - destruct (mem n infected_nodes); simpl; run.
    + destruct (Qltb (rs k) gamma); [ apply IH | ].
      pose proof (Main_transmit_beta_zero (neighbors G n) new (S k) Hv Hb)
        as Htr.
      destruct (Main.transmit infected_nodes beta (neighbors G n) new rs
                  (S k)) as [new' k1].
      simpl in Htr. subst new'. apply IH.
    + subst beta. rewrite (valid_not_below_zero rs k Hv). apply IH.
Qed.

Lemma Main_update_status_returns (k : nat) :
  nodes G <> [] ->
  exists p : Q,
    Main.update_status G infected_nodes beta gamma rs k
    = (Ok (fst (loop (nodes G) [] rs k), p), snd (loop (nodes G) [] rs k))
    /\ p == len (fst (loop (nodes G) [] rs k)) / len (nodes G).
Proof.
  intro Hne. unfold Main.update_status. run.
  destruct (Main.update_loop G infected_nodes beta gamma (nodes G) [] rs k)
    as [new k1].
  rewrite (truediv_ok _ _ (len_pos _ Hne)). unfold rbind.
  eexists. split; [ reflexivity | apply Qred_correct ].
Qed.

Lemma Main_update_status_inv (k k' : nat) (new : list node) (p : Q) :
  Main.update_status G infected_nodes beta gamma rs k = (Ok (new, p), k') ->
  new = fst (loop (nodes G) [] rs k) /\
  p == len new / len (nodes G) /\ nodes G <> [].
Proof.
  unfold Main.update_status. run.
  destruct (Main.update_loop G infected_nodes beta gamma (nodes G) [] rs k)
    as [new1 k1].
  destruct (truediv (len new1) (len (nodes G))) as [p1 | e] eqn:Hdiv;
    unfold rbind; [ | discriminate ].
  intro Heq. injection Heq as -> -> ->.
  apply truediv_inv in Hdiv. destruct Hdiv as [Hz ->].
  split; [ reflexivity | ].
  split; [ apply Qred_correct | ].
  intro Hnil. rewrite Hnil in Hz. discriminate.
Qed.

(** A node infected at step t-1 is never in the new state of main.py,
    whatever its recovery draw. *)
Lemma Main_infected_node_never_kept
  (k k' : nat) (new : list node) (p : Q) (n : node) :
  In n infected_nodes ->
  Main.update_status G infected_nodes beta gamma rs k = (Ok (new, p), k') ->
  ~ In n new.
Proof.
  intros Hinf Hrun Hin. apply Main_update_status_inv in Hrun.
  destruct Hrun as (-> & _ & _).
  apply Main_update_loop_In in Hin. destruct Hin as [[] | Hin].
  exact (Hin Hinf).
Qed.
End Main_facts.

(** The loop of [simulate_spread] in main.py runs all its steps on a graph
    with a node, whatever the parameters. *)
Lemma Main_spread_loop_runs {node : Type} `{EqDec node}
  (G : Graph node) (beta gamma : Q) (rs : RandomSource) :
  nodes G <> [] ->
  forall (T : nat) (infected_nodes : list node) (traj : list Q) (k : nat),
    exists (final : list node) (traj' : list Q) (k' : nat),
      Main.spread_loop G beta gamma T infected_nodes traj rs k
      = (Ok (final, traj'), k')
      /\ List.length traj' = (List.length traj + T)%nat.
Proof.
  intros Hne T.
  induction T as [ | T IH]; intros infected_nodes traj k; simpl.
  - run. exists infected_nodes, traj, k. split; [ reflexivity | lia ].
  - unfold bind.
    destruct (Main_update_status_returns G infected_nodes beta gamma rs k Hne)
      as (p & Hrun & _).
    rewrite Hrun.
    destruct (IH (fst (Main.update_loop G infected_nodes beta gamma
                         (nodes G) [] rs k))
                (traj ++ [p])
                (snd (Main.update_loop G infected_nodes beta gamma
                        (nodes G) [] rs k)))
      as (final & traj' & k' & Hloop & Hlen).
    exists final, traj', k'. split; [ exact Hloop | ].
    rewrite Hlen, length_app. simpl. lia.
Qed.

(** ** main.py, node by node *)

Section Main_visits.
Context {node : Type} `{EqDec node}.
Variables (G : Graph node) (infected_nodes : list node) (beta gamma : Q).
Variable rs : RandomSource.

Local Abbreviation loop := (Main.update_loop G infected_nodes beta gamma).

(** The susceptible neighbours of a node, in the order in which
    [G.neighbors] yields them: these are the neighbours that get a
    transmission trial from the node. *)
Local Abbreviation targets nbrs :=
  (filter (fun nb => negb (mem nb infected_nodes)) nbrs).

(** The transmission loop appends exactly the susceptible neighbours whose
    trial succeeds; the trial of the [j]-th susceptible neighbour is draw
    [k + j]. *)
Lemma Main_transmit_iff (nbrs : list node) (k : nat) (x : node) :
  In x (fst (Main.transmit infected_nodes beta nbrs [] rs k)) <->
  exists j : nat,
    nth_error (targets nbrs) j = Some x /\ rs (k + j)%nat < beta.
Proof.
  revert k. induction nbrs as [ | nb rest IH]; intros k; simpl.
  - run. split; [ intros [] | ].
    intros (j & Hj & _). destruct j; discriminate.
  - destruct (mem nb infected_nodes); simpl; [ apply IH | ].
    run. rewrite Main_transmit_acc. simpl. rewrite in_app_iff, IH. split.
    + intros [Hx | (j & Hj & Hlt)].
      * destruct (Qltb (rs k) beta) eqn:Hdraw; [ | destruct Hx ].
        destruct Hx as [<- | []]. exists 0%nat.
        rewrite Nat.add_0_r. split; [ reflexivity | ].
        apply Qltb_lt. exact Hdraw.
      * exists (S j). split; [ exact Hj | ].
        replace (k + S j)%nat with (S k + j)%nat by lia. exact Hlt.
    + intros (j & Hj & Hlt). destruct j as [ | j].
      * left. simpl in Hj. injection Hj as ->.
        rewrite Nat.add_0_r in Hlt. apply Qltb_lt in Hlt. rewrite Hlt.
        left. reflexivity.
      * right. exists j. split; [ exact Hj | ].
        replace (S k + j)%nat with (k + S j)%nat by lia. exact Hlt.
Qed.

(** Visiting the first node, then the others from the draw reached. *)
Lemma Main_update_loop_first (n : node) (rest : list node) (k : nat) :
  fst (loop (n :: rest) [] rs k)
  = fst (loop [n] [] rs k) ++ fst (loop rest [] rs (snd (loop [n] [] rs k)))
  /\ snd (loop (n :: rest) [] rs k)
     = snd (loop rest [] rs (snd (loop [n] [] rs k))).
Proof.
  change (n :: rest) with ([n] ++ rest).
  rewrite (Main_update_loop_app G infected_nodes beta gamma rs [n] rest [] k).
  rewrite (Main_update_loop_acc G infected_nodes beta gamma rs rest
             (fst (loop [n] [] rs k))).
  split; reflexivity.
Qed.

(** What the visit of one node appends: the node itself when it is
    susceptible and its draw is below [beta]; the susceptible neighbours
    whose trial succeeds when it is infected and does not recover. *)
Lemma Main_visit_iff (n : node) (k : nat) (x : node) :
  In x (fst (loop [n] [] rs k)) <->
  (x = n /\ ~ In n infected_nodes /\ rs k < beta) \/
  (In n infected_nodes /\ gamma <= rs k /\
   exists j : nat,
     nth_error (targets (neighbors G n)) j = Some x
     /\ rs (S k + j)%nat < beta).
Proof.
  simpl. destruct (mem n infected_nodes) eqn:Hmem; run.
  - apply mem_In in Hmem. destruct (Qltb (rs k) gamma) eqn:Hrec.
    + apply Qltb_lt in Hrec. simpl. split; [ intros [] | ].
      intros [(_ & Hn & _) | (_ & Hge & _)]; [ contradiction | ].
      exact (Qlt_not_le _ _ Hrec Hge).
    + apply Qltb_ge in Hrec.
      pose proof (Main_transmit_iff (neighbors G n) (S k) x) as Hiff.
      destruct (Main.transmit infected_nodes beta (neighbors G n) [] rs
                  (S k)) as [sent k1].
      simpl in Hiff |- *. rewrite Hiff. split.
      * intro Hj. right. repeat split; assumption.
      * intros [(_ & Hn & _) | (_ & _ & Hj)]; [ contradiction | exact Hj ].
  - apply mem_not_In in Hmem.
    destruct (Qltb (rs k) beta) eqn:Hdraw; simpl.
    + apply Qltb_lt in Hdraw. split.
      * intros [<- | []]. left. repeat split; assumption.
      * intros [(-> & _) | (Hinf & _)]; [ left; reflexivity | contradiction ].
    + split; [ intros [] | ].
      intros [(_ & _ & Hlt) | (Hinf & _)]; [ | contradiction ].
      apply Qltb_lt in Hlt. congruence.
Qed.

(** The new list of main.py, entry by entry: a node is appended by its own
    visit (susceptible, draw below [beta]) or by the visit of an infected
    node that does not recover and whose trial towards it succeeds. *)
Lemma Main_update_loop_iff (ns : list node) :
  forall (k : nat) (x : node),
    In x (fst (loop ns [] rs k)) <->
    (exists pre post : list node,
        ns = pre ++ x :: post /\ ~ In x infected_nodes
        /\ rs (snd (loop pre [] rs k)) < beta) \/
    (exists (pre : list node) (m : node) (post : list node) (j : nat),
        ns = pre ++ m :: post /\ In m infected_nodes
        /\ gamma <= rs (snd (loop pre [] rs k))
        /\ nth_error (targets (neighbors G m)) j = Some x
        /\ rs (S (snd (loop pre [] rs k)) + j)%nat < beta).
Proof.
  induction ns as [ | n rest IH]; intros k x.
  - simpl. split; [ intros [] | ].
    intros [(pre & post & Heq & _) | (pre & m & post & j & Heq & _)];
      destruct pre; discriminate.
  - destruct (Main_update_loop_first n rest k) as [Hfst _].
    rewrite Hfst, in_app_iff, Main_visit_iff, IH. clear Hfst.
    assert (Hidx : forall pre : list node,
               snd (loop (n :: pre) [] rs k)
               = snd (loop pre [] rs (snd (loop [n] [] rs k)))).
    { intro pre. apply (Main_update_loop_first n pre k). }
    split.
    + intros [[(-> & Hsus & Hlt) | (Hinf & Hge & j & Hj & Hlt)]
             | [(pre & post & Heq & Hsus & Hlt)
               | (pre & m & post & j & Heq & Hinf & Hge & Hj & Hlt)]].
      * left. exists [], rest. repeat split; assumption.
      * right. exists [], n, rest, j. repeat split; assumption.
      * left. exists (n :: pre), post. rewrite Hidx, Heq.
        repeat split; assumption.
      * right. exists (n :: pre), m, post, j. rewrite Hidx, Heq.
        repeat split; assumption.
    + intros [(pre & post & Heq & Hsus & Hlt)
             | (pre & m & post & j & Heq & Hinf & Hge & Hj & Hlt)].
      * destruct pre as [ | a pre]; simpl in Heq; injection Heq as -> ->.
        -- left. left. repeat split; assumption.
        -- right. left. rewrite Hidx in Hlt. exists pre, post.
           repeat split; assumption.
      * destruct pre as [ | a pre]; simpl in Heq; injection Heq as -> ->.
        -- left. right. split; [ exact Hinf | ]. split; [ exact Hge | ].
           exists j. split; assumption.
        -- right. right. rewrite Hidx in Hge, Hlt. exists pre, m, post, j.
           repeat split; assumption.
Qed.
End Main_visits.

(** A node occurs at one position only of a list without duplicates. *)
Lemma NoDup_split_unique {A : Type} (x : A) (pre : list A) :
  forall post pre' post' : list A,
    NoDup (pre ++ x :: post) ->
    pre ++ x :: post = pre' ++ x :: post' ->
    pre = pre'.
Proof.
  induction pre as [ | a pre IH]; intros post pre' post' Hnd Heq.
  - destruct pre' as [ | b pre']; [ reflexivity | ].
    simpl in Heq. injection Heq as <- Hpost.
    inversion Hnd as [ | ? ? Hnotin _]; subst.
    exfalso. apply Hnotin. apply in_or_app. right. left. reflexivity.
  - destruct pre' as [ | b pre'].
    + simpl in Heq. injection Heq as -> _.
      inversion Hnd as [ | ? ? Hnotin _]; subst.
      exfalso. apply Hnotin. apply in_or_app. right. left. reflexivity.
    + simpl in Heq. injection Heq as <- Hrest.
      inversion Hnd as [ | ? ? _ Hnd']; subst.
      f_equal. eapply IH; eassumption.
Qed.

(** ** Claims on the transition engine *)

(** C1. In main.py an infected node whose recovery trial fails is
    nevertheless absent from the new state: on the star with infected hub,
    [beta = gamma = 1/4] and every draw equal to 1/2, the hub does not
    recover (1/2 < 1/4 is false) and [update_status] returns the empty
    state, while main_task1.py keeps the hub on the same input. *)
Theorem C1_main_drops_unrecovered_node :
  Qltb (constant_source (1 # 2) 0%nat) (1 # 4) = false /\
  Main.update_status star4 [0%nat] (1 # 4) (1 # 4)
    (constant_source (1 # 2)) 0%nat = (Ok ([], 0), 9%nat) /\
  Task1.update_status star4 [0%nat] (1 # 4) (1 # 4)
    (constant_source (1 # 2)) 0%nat = (Ok ([0%nat], 1 # 5), 5%nat).
Proof. repeat split; vm_compute; reflexivity. Qed.

(** C2, refuted as stated for main.py: on the star with nobody infected,
    the hub has no infected neighbour, yet with [beta = 1/2] and every draw
    equal to 1/4 it is in the new state returned by [update_status]. *)
Lemma C2_main_infects_without_infected_neighbour :
  ~ In 0%nat (@nil nat) /\
  (forall nb : nat, In nb (neighbors star4 0%nat) -> ~ In nb (@nil nat)) /\
  exists (new : list nat) (p : Q) (k' : nat),
    Main.update_status star4 [] (1 # 2) (1 # 2)
      (constant_source (1 # 4)) 0%nat = (Ok (new, p), k')
    /\ In 0%nat new.
Proof.
  split; [ intros [] | ]. split; [ intros nb _ [] | ].
  exists [0; 1; 2; 3; 4]%nat, 1, 5%nat.
  split; [ vm_compute; reflexivity | left; reflexivity ].
Qed.

(** C2 (as amended). For a node of the graph that is susceptible at step
    t-1: in main_task1.py it is in the new infection state returned by
    [update_status] if and only if the transmission trial of at least one
    of its infected neighbours succeeds (the trial of the [j]-th infected
    neighbour is the [j]-th draw from the moment the node is visited), so
    without infected neighbour it is not in the new state; in main.py it is
    in the new state if and only if its own draw is below [beta], or some
    infected node of the graph fails to recover, has it among its
    neighbours and draws below [beta] in the trial towards it (the trial
    towards the [j]-th susceptible neighbour is the [j]-th draw after the
    recovery draw). *)
Theorem C2_susceptible_node_infection {node : Type} `{EqDec node}
  (G : Graph node) (infected_nodes : list node) (beta gamma : Q)
  (rs : RandomSource) (k : nat) (pre post : list node) (n : node) :
  NoDup (nodes G) -> nodes G = pre ++ n :: post -> ~ In n infected_nodes ->
  (let k_n := snd (Task1.update_loop G infected_nodes beta gamma pre [] rs k) in
   exists (new : list node) (p : Q) (k' : nat),
     Task1.update_status G infected_nodes beta gamma rs k = (Ok (new, p), k') /\
     (In n new <->
      exists (j : nat) (nb : node),
        nth_error
          (filter (fun nb => mem nb infected_nodes) (neighbors G n)) j
        = Some nb
        /\ rs (k_n + j)%nat < beta) /\
     ((forall nb : node, In nb (neighbors G n) -> ~ In nb infected_nodes) ->
      ~ In n new)) /\
  (let k_n := snd (Main.update_loop G infected_nodes beta gamma pre [] rs k) in
   exists (new : list node) (p : Q) (k' : nat),
     Main.update_status G infected_nodes beta gamma rs k = (Ok (new, p), k') /\
     (In n new <->
      rs k_n < beta \/
      exists (pre' : list node) (m : node) (post' : list node) (j : nat),
        let k_m :=
          snd (Main.update_loop G infected_nodes beta gamma pre' [] rs k) in
        nodes G = pre' ++ m :: post'
        /\ In m infected_nodes
        /\ gamma <= rs k_m
        /\ nth_error
             (filter (fun nb => negb (mem nb infected_nodes)) (neighbors G m))
             j
           = Some n
        /\ rs (S k_m + j)%nat < beta)).
Proof.
  intros Hnd Hsplit Hsus.
  assert (Hne : nodes G <> []).
  { rewrite Hsplit. intro Hnil. destruct pre; discriminate. }
  split.
  - intro k_n.
    destruct (Task1_update_status_returns G infected_nodes beta gamma rs k Hne)
      as (p & Hrun & _).
    eexists _, p, _. split; [ exact Hrun | ].
    rewrite Hsplit in Hnd |- *.
    pose proof (Task1_update_loop_visit G infected_nodes beta gamma rs
                  pre post n k Hnd) as Hvisit.
    simpl in Hvisit. fold k_n in Hvisit.
    pose proof Hsus as Hmem.
    apply mem_not_In in Hmem. rewrite Hmem in Hvisit.
    rewrite Task1_exposed_iff in Hvisit.
    split; [ exact Hvisit | ].
    intros Hclean Hin. apply Hvisit in Hin.
    destruct Hin as (j & nb & Hnth & _).
    apply nth_error_In in Hnth. apply filter_In in Hnth.
    destruct Hnth as [Hnb Hinf]. apply mem_In in Hinf.
    exact (Hclean nb Hnb Hinf).
  - intro k_n.
    destruct (Main_update_status_returns G infected_nodes beta gamma rs k Hne)
      as (p & Hrun & _).
    eexists _, p, _. split; [ exact Hrun | ].
    rewrite Main_update_loop_iff. split.
    + intros [(pre0 & post0 & Heq & _ & Hlt)
             | (pre' & m & post' & j & Hrest)].
      * left. rewrite Hsplit in Heq, Hnd.
        rewrite <- (NoDup_split_unique n pre post pre0 post0 Hnd Heq) in Hlt.
        exact Hlt.
      * right. exists pre', m, post', j. exact Hrest.
    + intros [Hlt | (pre' & m & post' & j & Hrest)].
      * left. exists pre, post. repeat split; assumption.
      * right. exists pre', m, post', j. exact Hrest.
Qed.

Lemma C2_susceptible_node_infection_witness :
  (exists (new : list nat) (p : Q) (k' : nat),
     Task1.update_status star4 [0%nat] (1 # 2) (1 # 2)
       (constant_source (1 # 4)) 0%nat = (Ok (new, p), k') /\
     (In 1%nat new <->
      exists (j : nat) (nb : nat),
        nth_error
          (filter (fun nb => mem nb [0%nat]) (neighbors star4 1%nat)) j
        = Some nb
        /\ constant_source (1 # 4) (1 + j)%nat < 1 # 2) /\
     ((forall nb : nat, In nb (neighbors star4 1%nat) -> ~ In nb [0%nat]) ->
      ~ In 1%nat new)) /\
  (exists (new : list nat) (p : Q) (k' : nat),
     Main.update_status star4 [0%nat] (1 # 2) (1 # 2)
       (constant_source (1 # 4)) 0%nat = (Ok (new, p), k') /\
     (In 1%nat new <->
      constant_source (1 # 4) 1%nat < 1 # 2 \/
      exists (pre' : list nat) (m : nat) (post' : list nat) (j : nat),
        let k_m :=
          snd (Main.update_loop star4 [0%nat] (1 # 2) (1 # 2) pre' []
                 (constant_source (1 # 4)) 0%nat) in
        nodes star4 = pre' ++ m :: post'
        /\ In m [0%nat]
        /\ 1 # 2 <= constant_source (1 # 4) k_m
        /\ nth_error
             (filter (fun nb => negb (mem nb [0%nat])) (neighbors star4 m)) j
           = Some 1%nat
        /\ constant_source (1 # 4) (S k_m + j)%nat < 1 # 2)).
Proof.
  apply (C2_susceptible_node_infection star4 [0%nat] (1 # 2) (1 # 2)
           (constant_source (1 # 4)) 0%nat [0%nat] [2; 3; 4]%nat 1%nat).
  - repeat constructor; simpl; intuition lia.
  - reflexivity.
  - simpl. intuition lia.
Defined.

(** C4. In main.py the recorded infected fraction can exceed 1: on the
    2 x 2 lattice with two opposite corners infected, [beta = 3/4],
    [gamma = 1/4] and every draw equal to 1/2, each step of
    [simulate_spread] records the fraction 3/2. *)
Theorem C4_main_fraction_exceeds_one :
  Main.simulate_spread (uniform_centrality (1 # 2)) lattice2 "lattice"
    [(0, 1); (1, 0)]%nat (3 # 4) (1 # 4) 2%Z (constant_source (1 # 2)) 0%nat
  = (Ok ([3 # 2; 3 # 2], 1 # 2, (0, 0)%nat), 16%nat) /\
  ~ unit_interval (3 # 2).
Proof.
  split; [ vm_compute; reflexivity | ].
  intros [_ Hle]. unfold Qle in Hle. simpl in Hle. lia.
Qed.

(** C5. In main.py the new state can list a node several times: on the
    2 x 2 lattice with two opposite corners infected, [beta = 3/4],
    [gamma = 1/4] and every draw equal to 1/2, [update_status] returns six
    entries for a graph of four nodes, each susceptible corner three
    times. *)
Theorem C5_main_new_state_has_duplicates :
  exists (new : list (nat * nat)) (p : Q) (k' : nat),
    Main.update_status lattice2 [(0, 1); (1, 0)]%nat (3 # 4) (1 # 4)
      (constant_source (1 # 2)) 0%nat = (Ok (new, p), k')
    /\ new = [(0, 0); (1, 1); (0, 0); (0, 0); (1, 1); (1, 1)]%nat
    /\ ~ NoDup new
    /\ (List.length (nodes lattice2) < List.length new)%nat.
Proof.
  eexists _, _, _. split; [ vm_compute; reflexivity | ].
  split; [ reflexivity | ]. split; [ | simpl; lia ].
  intro Hnd. inversion Hnd as [ | ? ? Hnotin _]; subst.
  apply Hnotin. right. right. left. reflexivity.
Qed.

(** C9. The two transition engines are not equivalent: on the star with
    nobody infected, [beta = gamma = 1/2] and every draw equal to 1/4,
    main.py infects every node spontaneously while main_task1.py returns
    the empty state. *)
Theorem C9_variants_differ :
  exists (G : Graph nat) (infected_nodes : list nat) (beta gamma : Q)
         (rs : RandomSource) (k : nat)
         (new1 new2 : list nat) (p1 p2 : Q) (k1 k2 : nat),
    valid_source rs /\ unit_interval beta /\ unit_interval gamma /\
    Main.update_status G infected_nodes beta gamma rs k = (Ok (new1, p1), k1) /\
    Task1.update_status G infected_nodes beta gamma rs k = (Ok (new2, p2), k2) /\
    exists x : nat, In x new1 /\ ~ In x new2.
Proof.
  exists star4, [], (1 # 2), (1 # 2), (constant_source (1 # 4)), 0%nat.
  exists [0; 1; 2; 3; 4]%nat, [], 1, 0, 5%nat, 0%nat.
  split; [ apply constant_source_valid; unfold Qle, Qlt; simpl; lia | ].
  split; [ unfold unit_interval, Qle; simpl; lia | ].
  split; [ unfold unit_interval, Qle; simpl; lia | ].
  split; [ vm_compute; reflexivity | ].
  split; [ vm_compute; reflexivity | ].
  exists 0%nat. split; [ left; reflexivity | intros [] ].
Qed.

(** C10. For every graph, prior infection state, [gamma] and random source
    (draws in [0, 1)): with [beta = 0] every node of the new state returned
    by [update_status], in main.py and in main_task1.py alike, was in the
    prior state; and on a graph with a node both do return a state. *)
Theorem C10_beta_zero_new_state_subset {node : Type} `{EqDec node}
  (G : Graph node) (infected_nodes : list node) (gamma : Q)
  (rs : RandomSource) (k : nat) :
  valid_source rs ->
  (forall (new : list node) (p : Q) (k' : nat),
      Main.update_status G infected_nodes 0 gamma rs k = (Ok (new, p), k') ->
      incl new infected_nodes) /\
  (forall (new : list node) (p : Q) (k' : nat),
      Task1.update_status G infected_nodes 0 gamma rs k = (Ok (new, p), k') ->
      incl new infected_nodes) /\
  (nodes G <> [] ->
   (exists (new : list node) (p : Q) (k' : nat),
       Main.update_status G infected_nodes 0 gamma rs k = (Ok (new, p), k')) /\
   (exists (new : list node) (p : Q) (k' : nat),
       Task1.update_status G infected_nodes 0 gamma rs k = (Ok (new, p), k'))).
Proof.
  intro Hv. split; [ | split ].
  - intros new p k' Hrun. apply Main_update_status_inv in Hrun.
    destruct Hrun as (-> & _ & _).
    rewrite Main_update_loop_beta_zero by (assumption || reflexivity).
    intros x [].
  - intros new p k' Hrun. apply Task1_update_status_inv in Hrun.
    destruct Hrun as (-> & _ & _).
    intros x Hx. eapply Task1_update_loop_beta_zero; eauto.
  - intro Hne. split.
    + destruct (Main_update_status_returns G infected_nodes 0 gamma rs k Hne)
        as (p & Hrun & _).
      eexists _, p, _. exact Hrun.
    + destruct (Task1_update_status_returns G infected_nodes 0 gamma rs k Hne)
        as (p & Hrun & _).
      eexists _, p, _. exact Hrun.
Qed.

Lemma C10_beta_zero_new_state_subset_witness :
  valid_source (constant_source (1 # 2)) /\
  (forall (new : list nat) (p : Q) (k' : nat),
      Main.update_status star4 [0; 1]%nat 0 (1 # 4)
        (constant_source (1 # 2)) 0%nat = (Ok (new, p), k') ->
      incl new [0; 1]%nat) /\
  (forall (new : list nat) (p : Q) (k' : nat),
      Task1.update_status star4 [0; 1]%nat 0 (1 # 4)
        (constant_source (1 # 2)) 0%nat = (Ok (new, p), k') ->
      incl new [0; 1]%nat).
Proof.
  assert (Hv : valid_source (constant_source (1 # 2))).
  { apply constant_source_valid; unfold Qle, Qlt; simpl; lia. }
  split; [ exact Hv | ].
  destruct (C10_beta_zero_new_state_subset star4 [0; 1]%nat (1 # 4)
              (constant_source (1 # 2)) 0%nat Hv) as (Hmain & Htask1 & _).
  split; assumption.
Defined.

(** ** The threshold checker *)




(** C3. In main_task1.py [check_threshold] does not compare with
    [1 / max_eigen]: for [beta = gamma = 1] and [max_eigen = 1/2] the
    ratio 1 does not exceed the threshold 2, yet it reports that the
    epidemic occurs; main.py reports no epidemic on the same input. *)
Theorem C3_task1_check_threshold_wrong_bound :
  ~ (1 / (1 # 2) < 1 / 1) /\
  Task1.check_threshold 1 1 (1 # 2) = Ok Epidemic_occurs /\
  Main.check_threshold 1 1 (1 # 2) = Ok No_epidemic_occurs.
Proof.
  split; [ | split; vm_compute; reflexivity ].
  intro Hlt. unfold Qlt in Hlt. simpl in Hlt. lia.
Qed.

(** ** Parameter validation *)

(** C7, refuted as stated: on the complete graph with five nodes, all
    infected, [beta = 1] and [gamma = 0], main.py rejects nothing: the loop
    of [simulate_spread] runs its three steps and records the trajectory
    [0, 1, 0]; whatever non-empty score map the centrality computation
    yields, [simulate_spread] returns that trajectory; only afterwards
    [check_threshold] raises [ZeroDivisionError], for every [max_eigen]. *)
Lemma C7_gamma_zero_run_not_rejected :
  Main.spread_loop complete5 1 0 3 [0; 1; 2; 3; 4]%nat []
    (constant_source (1 # 2)) 0%nat
  = (Ok ([], [0; 1; 0]), 15%nat) /\
  (forall (eigenvector_centrality :
             Graph nat -> option nat -> result (list (nat * Q)))
          (item : nat * Q) (items : list (nat * Q)),
      eigenvector_centrality complete5 None = Ok (item :: items) ->
      exists (max_eigen : Q) (leading_node : nat),
        Main.simulate_spread eigenvector_centrality complete5 "complete"
          [0; 1; 2; 3; 4]%nat 1 0 3%Z (constant_source (1 # 2)) 0%nat
        = (Ok ([0; 1; 0], max_eigen, leading_node), 15%nat)) /\
  (forall max_eigen : Q,
      Main.check_threshold 1 0 max_eigen = Raise ZeroDivisionError).
Proof.
  assert (Hloop : Main.spread_loop complete5 1 0 3 [0; 1; 2; 3; 4]%nat []
                    (constant_source (1 # 2)) 0%nat
                  = (Ok ([], [0; 1; 0]), 15%nat)).
  { vm_compute. reflexivity. }
  split; [ exact Hloop | ]. split; [ | intro max_eigen; reflexivity ].
  intros eigenvector_centrality item items Hec.
  unfold Main.simulate_spread, bind, ret.
  change (Z.to_nat 3) with 3%nat. rewrite Hloop.
  unfold rbind at 1.
  change (("complete" =? "lattice")%string || ("complete" =? "star")%string)
    with false.
  cbv iota. rewrite Hec. unfold rbind.
  eexists _, _. reflexivity.
Qed.

(** C7 (as amended). main.py validates no parameter: on a graph with a
    node, for any [beta], [gamma] and [T] (also outside their ranges,
    [gamma = 0] and [T <= 0] included), [simulate_spread] runs the
    [max(T, 0)] steps and, when the centrality computation it calls yields
    scores, returns a trajectory with that many entries; with [gamma = 0]
    the only failure is the [ZeroDivisionError] of [check_threshold],
    raised when it computes [beta / gamma]. *)
Theorem C7_main_no_parameter_validation {node : Type} `{EqDec node}
  (eigenvector_centrality : Graph node -> option nat -> result (list (node * Q)))
  (G : Graph node) (G_type : string) (infected_nodes : list node)
  (beta gamma : Q) (T : Z) (rs : RandomSource) (k : nat) :
  nodes G <> [] ->
  (exists item items,
      (if (G_type =? "lattice")%string || (G_type =? "star")%string
       then eigenvector_centrality G (Some 600%nat)
       else eigenvector_centrality G None)
      = Ok (item :: items)) ->
  (exists (traj : list Q) (max_eigen : Q) (leading_node : node) (k' : nat),
      Main.simulate_spread eigenvector_centrality G G_type infected_nodes
        beta gamma T rs k = (Ok (traj, max_eigen, leading_node), k')
      /\ List.length traj = Z.to_nat T) /\
  (forall max_eigen : Q,
      Main.check_threshold beta 0 max_eigen = Raise ZeroDivisionError).
Proof.
  intros Hne (item & items & Hec).
  split; [ | intro max_eigen; reflexivity ].
  unfold Main.simulate_spread, bind, ret.
  destruct (Main_spread_loop_runs G beta gamma rs Hne (Z.to_nat T)
              infected_nodes [] k) as (final & traj & k' & Hloop & Hlen).
  rewrite Hloop. unfold rbind at 1. rewrite Hec. unfold rbind.
  eexists traj, _, _, k'. split; [ reflexivity | exact Hlen ].
Qed.

Lemma C7_main_no_parameter_validation_witness :
  (exists (traj : list Q) (max_eigen : Q) (leading_node : nat) (k' : nat),
      Main.simulate_spread (uniform_centrality (1 # 2)) complete5 "complete"
        [0; 1; 2; 3; 4]%nat 2 0 (-1)%Z (constant_source (1 # 2)) 0%nat
      = (Ok (traj, max_eigen, leading_node), k')
      /\ List.length traj = Z.to_nat (-1)) /\
  (forall max_eigen : Q,
      Main.check_threshold 2 0 max_eigen = Raise ZeroDivisionError).
Proof.
  apply (C7_main_no_parameter_validation (uniform_centrality (1 # 2))
           complete5 "complete" [0; 1; 2; 3; 4]%nat 2 0 (-1)%Z
           (constant_source (1 # 2)) 0%nat).
  - simpl. discriminate.
  - eexists _, _. reflexivity.
Defined.

(** * Further properties of the code *)

(** ** The initial infection, draw by draw *)

Lemma initial_loop_acc {node : Type} (p0 : Q) (rs : RandomSource)
  (ns acc : list node) (k : nat) :
  initial_loop p0 ns acc rs k
  = (acc ++ fst (initial_loop p0 ns [] rs k), (k + List.length ns)%nat).
Proof.
  revert acc k. induction ns as [ | n rest IH]; intros acc k; simpl.
  - unfold ret. simpl. rewrite app_nil_r. f_equal. lia.
  - unfold bind, random. rewrite IH.
    rewrite (IH (if Qltb (rs k) p0 then _ else _)). simpl.
    destruct (Qltb (rs k) p0); simpl; rewrite <- ?app_assoc; simpl;
      f_equal; lia.
Qed.

Lemma initial_loop_In {node : Type} (p0 : Q) (rs : RandomSource)
  (ns : list node) (k : nat) (x : node) :
  In x (fst (initial_loop p0 ns [] rs k)) <->
  exists i : nat, nth_error ns i = Some x /\ rs (k + i)%nat < p0.
Proof.
  revert k. induction ns as [ | n rest IH]; intros k; simpl.
  - unfold ret. simpl. split; [ intros [] | ].
    intros (i & Hi & _). destruct i; discriminate.
  - unfold bind, random. rewrite initial_loop_acc. simpl.
    rewrite in_app_iff, IH. split.
    + intros [Hx | (i & Hi & Hlt)].
      * destruct (Qltb (rs k) p0) eqn:Hdraw; [ | destruct Hx ].
        destruct Hx as [<- | []]. exists 0%nat.
        rewrite Nat.add_0_r. split; [ reflexivity | ].
        apply Qltb_lt. exact Hdraw.
      * exists (S i). split; [ exact Hi | ].
        replace (k + S i)%nat with (S k + i)%nat by lia. exact Hlt.
    + intros (i & Hi & Hlt). destruct i as [ | i].
      * left. simpl in Hi. injection Hi as ->.
        rewrite Nat.add_0_r in Hlt. apply Qltb_lt in Hlt. rewrite Hlt.
        left. reflexivity.
      * right. exists i. split; [ exact Hi | ].
        replace (S k + i)%nat with (k + S i)%nat by lia. exact Hlt.
Qed.

Lemma initial_loop_NoDup {node : Type} (p0 : Q) (rs : RandomSource)
  (ns : list node) (k : nat) :
  NoDup ns -> NoDup (fst (initial_loop p0 ns [] rs k)).
Proof.
  revert k. induction ns as [ | n rest IH]; intros k Hnd; simpl.
  - constructor.
  - inversion Hnd as [ | ? ? Hn Hrest]; subst.
    unfold bind, random. rewrite initial_loop_acc. simpl.
    destruct (Qltb (rs k) p0); simpl; [ | apply IH; exact Hrest ].
    constructor; [ | apply IH; exact Hrest ].
    intro Hin. apply initial_loop_In in Hin.
    destruct Hin as (i & Hi & _). apply Hn.
    eapply nth_error_In. exact Hi.
Qed.

(** X1. [set_initial_infected] consumes exactly one draw per node, and a
    node is in the returned state exactly when it stands at some position
    [i] of [G.nodes()] and the [i]-th of these draws is below [p0]. *)
Theorem X1_initial_infected_by_draw {node : Type}
  (G : Graph node) (p0 : Q) (rs : RandomSource) (k : nat) :
  snd (set_initial_infected G p0 rs k) = (k + List.length (nodes G))%nat /\
  forall n : node,
    In n (fst (set_initial_infected G p0 rs k)) <->
    exists i : nat, nth_error (nodes G) i = Some n /\ rs (k + i)%nat < p0.
Proof.
  unfold set_initial_infected. split.
  - rewrite initial_loop_acc. reflexivity.
  - intro n. apply initial_loop_In.
Qed.

(** X2. On a graph whose nodes are distinct, the initial infection state
    lists each node at most once and only nodes of the graph, so it is no
    longer than the node list. *)
Theorem X2_initial_infected_NoDup {node : Type}
  (G : Graph node) (p0 : Q) (rs : RandomSource) (k : nat) :
  NoDup (nodes G) ->
  NoDup (fst (set_initial_infected G p0 rs k)) /\
  incl (fst (set_initial_infected G p0 rs k)) (nodes G) /\
  (List.length (fst (set_initial_infected G p0 rs k))
   <= List.length (nodes G))%nat.
Proof.
  intro Hnd. unfold set_initial_infected.
  assert (Hnew : NoDup (fst (initial_loop p0 (nodes G) [] rs k))).
  { apply initial_loop_NoDup. exact Hnd. }
  assert (Hincl : incl (fst (initial_loop p0 (nodes G) [] rs k)) (nodes G)).
  { intros x Hx. apply initial_loop_In in Hx.
    destruct Hx as (i & Hi & _). eapply nth_error_In. exact Hi. }
  split; [ exact Hnew | ]. split; [ exact Hincl | ].
  apply NoDup_incl_length; assumption.
Qed.

Lemma X2_initial_infected_NoDup_witness :
  NoDup (fst (set_initial_infected star4 (1 # 2) (constant_source (1 # 4)) 0%nat)) /\
  incl (fst (set_initial_infected star4 (1 # 2) (constant_source (1 # 4)) 0%nat))
    (nodes star4) /\
  (List.length
     (fst (set_initial_infected star4 (1 # 2) (constant_source (1 # 4)) 0%nat))
   <= List.length (nodes star4))%nat.
Proof.
  apply (X2_initial_infected_NoDup star4 (1 # 2) (constant_source (1 # 4))
           0%nat).
  repeat constructor; simpl; intuition lia.
Defined.

(** X3. For a fixed random source, raising [p0] can only add nodes to the
    initial infection state. *)
Theorem X3_initial_infected_monotone {node : Type}
  (G : Graph node) (p0 p0' : Q) (rs : RandomSource) (k : nat) :
  p0 <= p0' ->
  incl (fst (set_initial_infected G p0 rs k))
       (fst (set_initial_infected G p0' rs k)).
Proof.
  intros Hle n Hn. unfold set_initial_infected in *.
  apply initial_loop_In. apply initial_loop_In in Hn.
  destruct Hn as (i & Hi & Hlt). exists i. split; [ exact Hi | ].
  eapply Qlt_le_trans; eassumption.
Qed.

Lemma X3_initial_infected_monotone_witness :
  incl (fst (set_initial_infected star4 (1 # 4) (constant_source (1 # 2)) 0%nat))
       (fst (set_initial_infected star4 (3 # 4) (constant_source (1 # 2)) 0%nat)).
Proof.
  apply (X3_initial_infected_monotone star4 (1 # 4) (3 # 4)
           (constant_source (1 # 2)) 0%nat).
  unfold Qle. simpl. lia.
Defined.

(** ** The transition engine of main_task1.py, continued *)

(** X4. In main_task1.py a node of the graph that is infected at step t-1
    is in the new state if and only if the draw made when it is visited
    exceeds [gamma]. *)
Theorem X4_task1_infected_kept_iff {node : Type} `{EqDec node}
  (G : Graph node) (infected_nodes : list node) (beta gamma : Q)
  (rs : RandomSource) (k : nat) (pre post : list node) (n : node) :
  NoDup (nodes G) -> nodes G = pre ++ n :: post -> In n infected_nodes ->
  let k_n := snd (Task1.update_loop G infected_nodes beta gamma pre [] rs k) in
  exists (new : list node) (p : Q) (k' : nat),
    Task1.update_status G infected_nodes beta gamma rs k = (Ok (new, p), k') /\
    (In n new <-> gamma < rs k_n).
Proof.
  intros Hnd Hsplit Hinf k_n.
  assert (Hne : nodes G <> []).
  { rewrite Hsplit. intro Hnil. destruct pre; discriminate. }
  destruct (Task1_update_status_returns G infected_nodes beta gamma rs k Hne)
    as (p & Hrun & _).
  eexists _, p, _. split; [ exact Hrun | ].
  rewrite Hsplit in Hnd |- *.
  pose proof (Task1_update_loop_visit G infected_nodes beta gamma rs
                pre post n k Hnd) as Hvisit.
  simpl in Hvisit. fold k_n in Hvisit.
  apply mem_In in Hinf. rewrite Hinf in Hvisit.
  rewrite Hvisit. apply Qltb_lt.
Qed.

Lemma X4_task1_infected_kept_iff_witness :
  exists (new : list nat) (p : Q) (k' : nat),
    Task1.update_status star4 [0; 1]%nat (1 # 2) (1 # 4)
      (constant_source (1 # 2)) 0%nat = (Ok (new, p), k') /\
    (In 1%nat new <-> 1 # 4 < constant_source (1 # 2) 1%nat).
Proof.
  apply (X4_task1_infected_kept_iff star4 [0; 1]%nat (1 # 2) (1 # 4)
           (constant_source (1 # 2)) 0%nat [0%nat] [2; 3; 4]%nat 1%nat).
  - repeat constructor; simpl; intuition lia.
  - reflexivity.
  - simpl. intuition lia.
Defined.

(** X5. On a graph whose nodes are distinct, the new state returned by
    [update_status] of main_task1.py lists only nodes of the graph, each at
    most once, and the returned infected fraction lies in [0, 1]. *)
Theorem X5_task1_new_state_well_formed {node : Type} `{EqDec node}
  (G : Graph node) (infected_nodes : list node) (beta gamma : Q)
  (rs : RandomSource) (k k' : nat) (new : list node) (p : Q) :
  NoDup (nodes G) ->
  Task1.update_status G infected_nodes beta gamma rs k = (Ok (new, p), k') ->
  NoDup new /\ incl new (nodes G)
  /\ (List.length new <= List.length (nodes G))%nat
  /\ unit_interval p.
Proof.
  intros Hnd Hrun.
  destruct (Task1_new_state_NoDup G infected_nodes beta gamma rs k k' new p
              Hnd Hrun) as (Hnew & Hincl & Hlen).
  repeat split; try assumption;
    apply (Task1_fraction_bounds G infected_nodes beta gamma rs k k' new p
             Hnd Hrun).
Qed.

Lemma X5_task1_new_state_well_formed_witness :
  NoDup [0; 1]%nat /\ incl [0; 1]%nat (nodes star4)
  /\ (List.length [0; 1]%nat <= List.length (nodes star4))%nat
  /\ unit_interval (2 # 5).
Proof.
  apply (X5_task1_new_state_well_formed star4 [0; 1]%nat 0 (1 # 4)
           (constant_source (1 # 2)) 0%nat 5%nat [0; 1]%nat (2 # 5)).
  - repeat constructor; simpl; intuition lia.
  - vm_compute. reflexivity.
Defined.

(** X6. On a graph with at least one node and distinct nodes,
    [simulate_spread] of main_task1.py returns, whenever the centrality
    computation yields scores, a trajectory with exactly [max(T, 0)]
    entries, all in [0, 1]. *)
Theorem X6_task1_simulate_spread_trajectory {node : Type} `{EqDec node}
  (eigenvector_centrality : Graph node -> option nat -> result (list (node * Q)))
  (G : Graph node) (infected_nodes : list node)
  (beta gamma : Q) (T : Z) (rs : RandomSource) (k : nat) :
  NoDup (nodes G) -> nodes G <> [] ->
  (exists item items,
      eigenvector_centrality G (Some 600%nat) = Ok (item :: items)) ->
  exists (traj : list Q) (max_eigen : Q) (leading_node : node) (k' : nat),
    Task1.simulate_spread eigenvector_centrality G infected_nodes
      beta gamma T rs k = (Ok (traj, max_eigen, leading_node), k')
    /\ List.length traj = Z.to_nat T
    /\ Forall unit_interval traj.
Proof.
  intros Hnd Hne (item & items & Hec).
  unfold Task1.simulate_spread, bind, ret.
  destruct (Task1_trajectory_bounds G beta gamma rs Hnd Hne (Z.to_nat T)
              infected_nodes [] k (Forall_nil _))
    as (final & traj & k' & Hloop & Hall & Hlen).
  rewrite Hloop. unfold rbind at 1. rewrite Hec. unfold rbind.
  eexists traj, _, _, k'. split; [ reflexivity | ].
  split; [ exact Hlen | exact Hall ].
Qed.

Lemma X6_task1_simulate_spread_trajectory_witness :
  exists (traj : list Q) (max_eigen : Q) (leading_node : nat) (k' : nat),
    Task1.simulate_spread (uniform_centrality (1 # 2)) star4 [0%nat]
      (1 # 2) (1 # 2) 3%Z (constant_source (1 # 4)) 0%nat
    = (Ok (traj, max_eigen, leading_node), k')
    /\ List.length traj = Z.to_nat 3
    /\ Forall unit_interval traj.
Proof.
  apply (X6_task1_simulate_spread_trajectory (uniform_centrality (1 # 2))
           star4 [0%nat] (1 # 2) (1 # 2) 3%Z (constant_source (1 # 4)) 0%nat).
  - repeat constructor; simpl; intuition lia.
  - simpl. discriminate.
  - eexists _, _. reflexivity.
Defined.

Lemma Task1_update_loop_all_recover {node : Type} `{EqDec node}
  (G : Graph node) (infected_nodes : list node) (beta gamma : Q)
  (rs : RandomSource) :
  valid_source rs -> 1 <= gamma ->
  forall (ns : list node) (k : nat) (x : node),
    In x (fst (Task1.update_loop G infected_nodes beta gamma ns [] rs k)) ->
    ~ In x infected_nodes.
Proof.
  intros Hv Hg ns. induction ns as [ | n rest IH]; intros k x; simpl.
  - run. tauto.
  - destruct (mem n infected_nodes) eqn:Hmem; simpl; run.
    + assert (Hdraw : Qltb gamma (rs k) = false).
      { apply Qltb_ge. apply Qlt_le_weak.
        eapply Qlt_le_trans; [ apply Hv | exact Hg ]. }
      rewrite Hdraw. apply IH.
    + destruct (Task1.exposed infected_nodes beta (neighbors G n) rs k)
        as [hit k1].
      rewrite Task1_update_loop_acc. simpl. rewrite in_app_iff.
      intros [Hx | Hx]; [ | eapply IH; exact Hx ].
      apply mem_not_In in Hmem.
      destruct hit; simpl in Hx; [ | tauto ].
      destruct Hx as [<- | []]. exact Hmem.
Qed.

(** X7. In main_task1.py, for draws in [0, 1) and [gamma >= 1], every
    infected node recovers: no node of the new state returned by
    [update_status] was in the prior state. *)
Theorem X7_task1_certain_recovery {node : Type} `{EqDec node}
  (G : Graph node) (infected_nodes : list node) (beta gamma : Q)
  (rs : RandomSource) (k k' : nat) (new : list node) (p : Q) :
  valid_source rs -> 1 <= gamma ->
  Task1.update_status G infected_nodes beta gamma rs k = (Ok (new, p), k') ->
  forall x : node, In x new -> ~ In x infected_nodes.
Proof.
  intros Hv Hg Hrun x Hx. apply Task1_update_status_inv in Hrun.
  destruct Hrun as (-> & _ & _).
  eapply Task1_update_loop_all_recover; eassumption.
Qed.

Lemma X7_task1_certain_recovery_witness :
  Task1.update_status star4 [0%nat] (1 # 2) 1 (constant_source (1 # 4)) 0%nat
  = (Ok ([1; 2; 3; 4]%nat, 4 # 5), 5%nat) /\
  ~ In 1%nat [0%nat].
Proof.
  assert (Hv : valid_source (constant_source (1 # 4))).
  { apply constant_source_valid; unfold Qle, Qlt; simpl; lia. }
  assert (Hrun : Task1.update_status star4 [0%nat] (1 # 2) 1
                   (constant_source (1 # 4)) 0%nat
                 = (Ok ([1; 2; 3; 4]%nat, 4 # 5), 5%nat)).
  { vm_compute. reflexivity. }
  split; [ exact Hrun | ].
  apply (X7_task1_certain_recovery star4 [0%nat] (1 # 2) 1
           (constant_source (1 # 4)) 0%nat 5%nat [1; 2; 3; 4]%nat (4 # 5) Hv).
  - unfold Qle. simpl. lia.
  - exact Hrun.
  - left. reflexivity.
Defined.

(** X8. In main_task1.py, for draws in [0, 1) and [beta >= 1], a node of
    the graph that is susceptible at step t-1 is in the new state if and
    only if one of its neighbours is infected. *)
Theorem X8_task1_certain_transmission {node : Type} `{EqDec node}
  (G : Graph node) (infected_nodes : list node) (beta gamma : Q)
  (rs : RandomSource) (k : nat) (pre post : list node) (n : node) :
  valid_source rs -> 1 <= beta ->
  NoDup (nodes G) -> nodes G = pre ++ n :: post -> ~ In n infected_nodes ->
  exists (new : list node) (p : Q) (k' : nat),
    Task1.update_status G infected_nodes beta gamma rs k = (Ok (new, p), k') /\
    (In n new <->
     exists nb : node, In nb (neighbors G n) /\ In nb infected_nodes).
Proof.
  intros Hv Hb Hnd Hsplit Hsus.
  assert (Hne : nodes G <> []).
  { rewrite Hsplit. intro Hnil. destruct pre; discriminate. }
  destruct (Task1_update_status_returns G infected_nodes beta gamma rs k Hne)
    as (p & Hrun & _).
  eexists _, p, _. split; [ exact Hrun | ].
  rewrite Hsplit in Hnd |- *.
  pose proof (Task1_update_loop_visit G infected_nodes beta gamma rs
                pre post n k Hnd) as Hvisit.
  simpl in Hvisit.
  apply mem_not_In in Hsus. rewrite Hsus in Hvisit.
  rewrite Task1_exposed_iff in Hvisit. rewrite Hvisit. split.
  - intros (j & nb & Hnth & _).
    apply nth_error_In in Hnth. apply filter_In in Hnth.
    destruct Hnth as [Hnb Hmem]. apply mem_In in Hmem.
    exists nb. split; assumption.
  - intros (nb & Hnb & Hinf).
    assert (Hin : In nb (filter (fun nb => mem nb infected_nodes)
                           (neighbors G n))).
    { apply filter_In. split; [ exact Hnb | apply mem_In; exact Hinf ]. }
    apply In_nth_error in Hin. destruct Hin as (j & Hj).
    exists j, nb. split; [ exact Hj | ].
    eapply Qlt_le_trans; [ apply Hv | exact Hb ].
Qed.

Lemma X8_task1_certain_transmission_witness :
  exists (new : list nat) (p : Q) (k' : nat),
    Task1.update_status star4 [0%nat] 1 (1 # 2)
      (constant_source (1 # 4)) 0%nat = (Ok (new, p), k') /\
    (In 1%nat new <->
     exists nb : nat, In nb (neighbors star4 1%nat) /\ In nb [0%nat]).
Proof.
  assert (Hv : valid_source (constant_source (1 # 4))).
  { apply constant_source_valid; unfold Qle, Qlt; simpl; lia. }
  apply (X8_task1_certain_transmission star4 [0%nat] 1 (1 # 2)
           (constant_source (1 # 4)) 0%nat [0%nat] [2; 3; 4]%nat 1%nat Hv).
  - unfold Qle. simpl. lia.
  - repeat constructor; simpl; intuition lia.
  - reflexivity.
  - simpl. intuition lia.
Defined.

(** ** The transition engine of main.py, continued *)

Lemma Main_update_loop_origin {node : Type} `{EqDec node}
  (G : Graph node) (infected_nodes : list node) (beta gamma : Q)
  (rs : RandomSource) (ns : list node) :
  forall (new : list node) (k : nat) (x : node),
    In x (fst (Main.update_loop G infected_nodes beta gamma ns new rs k)) ->
    In x new \/ In x ns \/ exists n : node, In n ns /\ In x (neighbors G n).
Proof.
  induction ns as [ | n rest IH]; intros new k x; simpl.
  - run. tauto.
  - destruct (mem n infected_nodes); simpl; run.
    + destruct (Qltb (rs k) gamma).
      * intro Hx. apply IH in Hx.
        destruct Hx as [Hx | [Hx | (m & Hm & Hx)]]; eauto 6.
      * pose proof (Main_transmit_In infected_nodes beta rs
                      (neighbors G n) new (S k) x) as Htr.
        destruct (Main.transmit infected_nodes beta (neighbors G n) new rs
                    (S k)) as [new' k1].
        simpl in Htr. intro Hx. apply IH in Hx.
        destruct Hx as [Hx | [Hx | (m & Hm & Hx)]]; eauto 6.
        apply Htr in Hx. destruct Hx as [Hx | [Hx _]]; eauto 6.
    + intro Hx. apply IH in Hx.
      destruct Hx as [Hx | [Hx | (m & Hm & Hx)]]; eauto 6.
      destruct (Qltb (rs k) beta); [ | tauto ].
      apply in_app_or in Hx. destruct Hx as [Hx | [<- | []]]; auto.
Qed.

(** X9. In main.py every entry of the new state returned by
    [update_status] was susceptible at step t-1 (an infected node is never
    carried over), and when the neighbours of the graph's nodes are nodes of
    the graph, every entry is a node of the graph. *)
Theorem X9_main_new_state_entries {node : Type} `{EqDec node}
  (G : Graph node) (infected_nodes : list node) (beta gamma : Q)
  (rs : RandomSource) (k k' : nat) (new : list node) (p : Q) :
  (forall n : node, In n (nodes G) -> incl (neighbors G n) (nodes G)) ->
  Main.update_status G infected_nodes beta gamma rs k = (Ok (new, p), k') ->
  forall x : node, In x new -> In x (nodes G) /\ ~ In x infected_nodes.
Proof.
  intros Hclosed Hrun x Hx.
  split.
  - apply Main_update_status_inv in Hrun. destruct Hrun as (-> & _ & _).
    apply Main_update_loop_origin in Hx.
    destruct Hx as [[] | [Hx | (n & Hn & Hx)]]; [ exact Hx | ].
    exact (Hclosed n Hn x Hx).
  - intro Hinf.
    exact (Main_infected_node_never_kept G infected_nodes beta gamma rs
             k k' new p x Hinf Hrun Hx).
Qed.

Lemma X9_main_new_state_entries_witness :
  In 1%nat (nodes star4) /\ ~ In 1%nat [0%nat].
Proof.
  apply (X9_main_new_state_entries star4 [0%nat] (3 # 4) (1 # 4)
           (constant_source (1 # 2)) 0%nat 9%nat
           [1; 2; 3; 4; 1; 2; 3; 4]%nat (8 # 5)).
  - intros n Hn x Hx. simpl in Hn.
    destruct Hn as [<- | [<- | [<- | [<- | [<- | []]]]]]; simpl in *;
      intuition lia.
  - vm_compute. reflexivity.
  - left. reflexivity.
Defined.

(** X10. In main.py, for draws in [0, 1) and [beta = 0], [update_status]
    on a graph with a node returns the empty state with infected fraction
    0, whatever the prior state and [gamma]. *)
Theorem X10_main_beta_zero_extinction {node : Type} `{EqDec node}
  (G : Graph node) (infected_nodes : list node) (gamma : Q)
  (rs : RandomSource) (k : nat) :
  valid_source rs -> nodes G <> [] ->
  exists k' : nat,
    Main.update_status G infected_nodes 0 gamma rs k = (Ok ([], 0), k').
Proof.
  intros Hv Hne. unfold Main.update_status, bind, ret.
  pose proof (Main_update_loop_beta_zero G infected_nodes 0 gamma rs
                (nodes G) [] k Hv eq_refl) as Hloop.
  destruct (Main.update_loop G infected_nodes 0 gamma (nodes G) [] rs k)
    as [new k1].
  simpl in Hloop. subst new. exists k1.
  change (len (@nil node)) with 0.
  rewrite (truediv_zero _ (len_pos _ Hne)). reflexivity.
Qed.

Lemma X10_main_beta_zero_extinction_witness :
  exists k' : nat,
    Main.update_status star4 [0; 1]%nat 0 (1 # 4)
      (constant_source (1 # 2)) 0%nat = (Ok ([], 0), k').
Proof.
  apply (X10_main_beta_zero_extinction star4 [0; 1]%nat (1 # 4)
           (constant_source (1 # 2)) 0%nat).
  - apply constant_source_valid; unfold Qle, Qlt; simpl; lia.
  - simpl. discriminate.
Defined.

Lemma Main_update_loop_from_empty {node : Type} `{EqDec node}
  (G : Graph node) (beta gamma : Q) (rs : RandomSource) (ns : list node) :
  forall (new : list node) (k : nat),
    Main.update_loop G [] beta gamma ns new rs k
    = initial_loop beta ns new rs k.
Proof.
  induction ns as [ | n rest IH]; intros new k; simpl.
  - reflexivity.
  - unfold bind, random. apply IH.
Qed.

(** X11. In main.py the empty state is not absorbing: on the empty prior
    state [update_status] infects exactly the nodes that
    [set_initial_infected] with [p0 = beta] would infect from the same
    draws, and consumes the same draws. *)
Theorem X11_main_empty_state_reseeds {node : Type} `{EqDec node}
  (G : Graph node) (beta gamma : Q) (rs : RandomSource) (k : nat) :
  nodes G <> [] ->
  exists p : Q,
    Main.update_status G [] beta gamma rs k
    = (Ok (fst (set_initial_infected G beta rs k), p),
       snd (set_initial_infected G beta rs k))
    /\ p == len (fst (set_initial_infected G beta rs k)) / len (nodes G).
Proof.
  intro Hne. unfold set_initial_infected.
  rewrite <- (Main_update_loop_from_empty G beta gamma rs (nodes G) [] k).
  apply Main_update_status_returns. exact Hne.
Qed.

Lemma X11_main_empty_state_reseeds_witness :
  exists p : Q,
    Main.update_status star4 [] (1 # 2) (1 # 2) (constant_source (1 # 4)) 0%nat
    = (Ok (fst (set_initial_infected star4 (1 # 2)
                  (constant_source (1 # 4)) 0%nat), p),
       snd (set_initial_infected star4 (1 # 2)
              (constant_source (1 # 4)) 0%nat))
    /\ p == len (fst (set_initial_infected star4 (1 # 2)
                        (constant_source (1 # 4)) 0%nat))
            / len (nodes star4).
Proof.
  apply (X11_main_empty_state_reseeds star4 (1 # 2) (1 # 2)
           (constant_source (1 # 4)) 0%nat).
  simpl. discriminate.
Defined.

Lemma Main_transmit_all_infected {node : Type} `{EqDec node}
  (infected_nodes : list node) (beta : Q) (rs : RandomSource)
  (nbrs : list node) :
  incl nbrs infected_nodes ->
  forall (new : list node) (k : nat),
    Main.transmit infected_nodes beta nbrs new rs k = (new, k).
Proof.
  induction nbrs as [ | nb rest IH]; intros Hincl new k; simpl.
  - reflexivity.
  - assert (Hmem : mem nb infected_nodes = true).
    { apply mem_In. apply Hincl. left. reflexivity. }
    rewrite Hmem. simpl. apply IH.
    intros x Hx. apply Hincl. right. exact Hx.
Qed.

Lemma Main_update_loop_all_infected {node : Type} `{EqDec node}
  (G : Graph node) (infected_nodes : list node) (beta gamma : Q)
  (rs : RandomSource) (ns : list node) :
  incl ns infected_nodes ->
  (forall n : node, In n ns -> incl (neighbors G n) infected_nodes) ->
  forall (new : list node) (k : nat),
    Main.update_loop G infected_nodes beta gamma ns new rs k
    = (new, (k + List.length ns)%nat).
Proof.
  induction ns as [ | n rest IH]; intros Hincl Hnbrs new k; simpl.
  - unfold ret. f_equal. lia.
  - assert (Hmem : mem n infected_nodes = true).
    { apply mem_In. apply Hincl. left. reflexivity. }
    assert (Hrest : forall new' : list node,
               Main.update_loop G infected_nodes beta gamma rest new' rs (S k)
               = (new', (k + S (List.length rest))%nat)).
    { intro new'. rewrite IH.
      - f_equal. lia.
      - intros x Hx. apply Hincl. right. exact Hx.
      - intros m Hm. apply Hnbrs. right. exact Hm. }
    rewrite Hmem. unfold bind, random.
    destruct (Qltb (rs k) gamma); [ apply Hrest | ].
    rewrite Main_transmit_all_infected
      by (apply Hnbrs; left; reflexivity).
    apply Hrest.
Qed.

(** X12. In main.py, when every node of the graph and every neighbour of
    a node is infected at step t-1, [update_status] returns the empty state
    with infected fraction 0 after one draw per node, whatever [beta],
    [gamma] and the draws. *)
Theorem X12_main_full_infection_vanishes {node : Type} `{EqDec node}
  (G : Graph node) (infected_nodes : list node) (beta gamma : Q)
  (rs : RandomSource) (k : nat) :
  nodes G <> [] ->
  incl (nodes G) infected_nodes ->
  (forall n : node, In n (nodes G) -> incl (neighbors G n) infected_nodes) ->
  Main.update_status G infected_nodes beta gamma rs k
  = (Ok ([], 0), (k + List.length (nodes G))%nat).
Proof.
  intros Hne Hincl Hnbrs. unfold Main.update_status, bind, ret.
  rewrite Main_update_loop_all_infected by assumption.
  change (len (@nil node)) with 0.
  rewrite (truediv_zero _ (len_pos _ Hne)). reflexivity.
Qed.

Lemma X12_main_full_infection_vanishes_witness :
  Main.update_status star4 [0; 1; 2; 3; 4]%nat (3 # 4) (1 # 4)
    (constant_source (1 # 2)) 0%nat
  = (Ok ([], 0), (0 + List.length (nodes star4))%nat).
Proof.
  apply (X12_main_full_infection_vanishes star4 [0; 1; 2; 3; 4]%nat
           (3 # 4) (1 # 4) (constant_source (1 # 2)) 0%nat).
  - simpl. discriminate.
  - intros x Hx. exact Hx.
  - intros n Hn x Hx. simpl in Hn.
    destruct Hn as [<- | [<- | [<- | [<- | [<- | []]]]]]; simpl in *;
      intuition lia.
Defined.

(** ** Errors of the transition engines *)

(** X13. In both files [update_status] raises [ZeroDivisionError] exactly
    on a graph without nodes, and then consumes no draw; on every other
    graph it returns a state and a fraction. *)
Theorem X13_update_status_empty_graph {node : Type} `{EqDec node}
  (G : Graph node) (infected_nodes : list node) (beta gamma : Q)
  (rs : RandomSource) (k : nat) :
  (nodes G = [] ->
   Main.update_status G infected_nodes beta gamma rs k
   = (Raise ZeroDivisionError, k) /\
   Task1.update_status G infected_nodes beta gamma rs k
   = (Raise ZeroDivisionError, k)) /\
  (nodes G <> [] ->
   (exists (new : list node) (p : Q) (k' : nat),
       Main.update_status G infected_nodes beta gamma rs k
       = (Ok (new, p), k')) /\
   (exists (new : list node) (p : Q) (k' : nat),
       Task1.update_status G infected_nodes beta gamma rs k
       = (Ok (new, p), k'))).
Proof.
  split.
  - intro Hnil. unfold Main.update_status, Task1.update_status, bind, ret.
    rewrite Hnil. simpl. split; reflexivity.
  - intro Hne. split.
    + destruct (Main_update_status_returns G infected_nodes beta gamma rs k
                  Hne) as (p & Hrun & _).
      eexists _, p, _. exact Hrun.
    + destruct (Task1_update_status_returns G infected_nodes beta gamma rs k
                  Hne) as (p & Hrun & _).
      eexists _, p, _. exact Hrun.
Qed.

Lemma X13_update_status_empty_graph_witness :
  Main.update_status {| nodes := @nil nat; neighbors := fun _ => [] |}
    [0%nat] (1 # 2) (1 # 2) (constant_source (1 # 4)) 3%nat
  = (Raise ZeroDivisionError, 3%nat) /\
  exists (new : list nat) (p : Q) (k' : nat),
    Task1.update_status star4 [0%nat] (1 # 2) (1 # 2)
      (constant_source (1 # 4)) 3%nat = (Ok (new, p), k').
Proof.
  split.
  - apply (X13_update_status_empty_graph
             {| nodes := @nil nat; neighbors := fun _ => [] |}
             [0%nat] (1 # 2) (1 # 2) (constant_source (1 # 4)) 3%nat).
    reflexivity.
  - apply (X13_update_status_empty_graph star4
             [0%nat] (1 # 2) (1 # 2) (constant_source (1 # 4)) 3%nat).
    simpl. discriminate.
Defined.

(** ** The threshold checker, continued *)




(** ** The leading node *)

(** [max_by] returns the first item whose key is maximal. *)
Lemma max_by_first_maximal {A : Type} (key : A -> Q) (l : list A) :
  forall best : A,
    exists pre post : list A,
      best :: l = pre ++ max_by key best l :: post
      /\ (forall x : A, In x pre -> key x < key (max_by key best l))
      /\ (forall x : A, In x post -> key x <= key (max_by key best l)).
Proof.
  induction l as [ | x rest IH]; intros best; simpl.
  - exists [], []. split; [ reflexivity | ]. split; intros y [].
  - destruct (Qltb (key best) (key x)) eqn:Hcmp.
    + apply Qltb_lt in Hcmp.
      destruct (IH x) as (pre & post & Hsplit & Hpre & Hpost).
      exists (best :: pre), post. split; [ simpl; rewrite Hsplit; reflexivity | ].
      split; [ | exact Hpost ].
      intros y [<- | Hy]; [ | apply Hpre; exact Hy ].
      assert (Hx : key x <= key (max_by key x rest)).
      { assert (Hin : In x (pre ++ max_by key x rest :: post)).
        { rewrite <- Hsplit. left. reflexivity. }
        apply in_app_or in Hin. destruct Hin as [Hin | [Hin | Hin]].
        - apply Qlt_le_weak. apply Hpre. exact Hin.
        - rewrite Hin. apply Qle_refl.
        - apply Hpost. exact Hin. }
      eapply Qlt_le_trans; eassumption.
    + apply Qltb_ge in Hcmp.
      destruct (IH best) as (pre & post & Hsplit & Hpre & Hpost).
      destruct pre as [ | b pre'].
      * simpl in Hsplit. injection Hsplit as Hbest Hrest.
        exists [], (x :: post). split.
        { simpl. congruence. }
        split; [ intros y [] | ].
        intros y [<- | Hy]; [ | apply Hpost; exact Hy ].
        rewrite <- Hbest. exact Hcmp.
      * simpl in Hsplit. injection Hsplit as Hb Hrest. subst b.
        exists (best :: x :: pre'), post. split.
        { simpl. rewrite <- Hrest. reflexivity. }
        split; [ | exact Hpost ].
        assert (Hbest : key best < key (max_by key best rest)).
        { apply Hpre. left. reflexivity. }
        intros y [<- | [<- | Hy]].
        -- exact Hbest.
        -- eapply Qle_lt_trans; eassumption.
        -- apply Hpre. right. exact Hy.
Qed.

(** X17. When [simulate_spread] of main.py returns, the returned
    [max_eigen] and [leading_node] are one entry of the centrality map
    computed for the graph (with 600 iterations for the lattice and the
    star, the default otherwise): the first entry whose score is maximal,
    so every earlier score is strictly smaller and no later one is
    larger. *)
Theorem X17_main_leading_node_first_maximal {node : Type} `{EqDec node}
  (eigenvector_centrality : Graph node -> option nat -> result (list (node * Q)))
  (G : Graph node) (G_type : string) (infected_nodes : list node)
  (beta gamma : Q) (T : Z) (rs : RandomSource) (k k' : nat)
  (traj : list Q) (max_eigen : Q) (leading_node : node) :
  Main.simulate_spread eigenvector_centrality G G_type infected_nodes
    beta gamma T rs k = (Ok (traj, max_eigen, leading_node), k') ->
  exists pre post : list (node * Q),
    (if (G_type =? "lattice")%string || (G_type =? "star")%string
     then eigenvector_centrality G (Some 600%nat)
     else eigenvector_centrality G None)
    = Ok (pre ++ (leading_node, max_eigen) :: post)
    /\ (forall x : node * Q, In x pre -> snd x < max_eigen)
    /\ (forall x : node * Q, In x post -> snd x <= max_eigen).
Proof.
  unfold Main.simulate_spread, bind, ret.
  destruct (Main.spread_loop G beta gamma (Z.to_nat T) infected_nodes [] rs k)
    as [[[final traj'] | e] k1]; unfold rbind at 1; [ | discriminate ].
  destruct (if (G_type =? "lattice")%string || (G_type =? "star")%string
            then eigenvector_centrality G (Some 600%nat)
            else eigenvector_centrality G None)
    as [[ | item items] | e]; unfold rbind; try discriminate.
  intro Hret.
  destruct (max_by_first_maximal snd items item)
    as (pre & post & Hsplit & Hpre & Hpost).
  destruct (max_by snd item items) as [ln me].
  simpl in Hret. injection Hret as _ <- <- _.
  exists pre, post. split; [ rewrite Hsplit; reflexivity | ].
  split; assumption.
Qed.

Lemma X17_main_leading_node_first_maximal_witness :
  exists pre post : list (nat * Q),
    uniform_centrality (1 # 2) complete5 None
    = Ok (pre ++ (0%nat, 1 # 2) :: post)
    /\ (forall x : nat * Q, In x pre -> snd x < 1 # 2)
    /\ (forall x : nat * Q, In x post -> snd x <= 1 # 2).
Proof.
  apply (X17_main_leading_node_first_maximal (uniform_centrality (1 # 2))
           complete5 "complete" [0; 1; 2; 3; 4]%nat 1 0 3%Z
           (constant_source (1 # 2)) 0%nat 15%nat [0; 1; 0] (1 # 2) 0%nat).
  vm_compute. reflexivity.
Defined.

(** X18. When [simulate_spread] of main_task1.py returns, the returned
    [max_eigen] and [leading_node] are the first entry with maximal score
    of the centrality map computed with 600 iterations. *)
Theorem X18_task1_leading_node_first_maximal {node : Type} `{EqDec node}
  (eigenvector_centrality : Graph node -> option nat -> result (list (node * Q)))
  (G : Graph node) (infected_nodes : list node)
  (beta gamma : Q) (T : Z) (rs : RandomSource) (k k' : nat)
  (traj : list Q) (max_eigen : Q) (leading_node : node) :
  Task1.simulate_spread eigenvector_centrality G infected_nodes
    beta gamma T rs k = (Ok (traj, max_eigen, leading_node), k') ->
  exists pre post : list (node * Q),
    eigenvector_centrality G (Some 600%nat)
    = Ok (pre ++ (leading_node, max_eigen) :: post)
    /\ (forall x : node * Q, In x pre -> snd x < max_eigen)
    /\ (forall x : node * Q, In x post -> snd x <= max_eigen).
Proof.
  unfold Task1.simulate_spread, bind, ret.
  destruct (Task1.spread_loop G beta gamma (Z.to_nat T) infected_nodes [] rs k)
    as [[[final traj'] | e] k1]; unfold rbind at 1; [ | discriminate ].
  destruct (eigenvector_centrality G (Some 600%nat))
    as [[ | item items] | e]; unfold rbind; try discriminate.
  intro Hret.
  destruct (max_by_first_maximal snd items item)
    as (pre & post & Hsplit & Hpre & Hpost).
  destruct (max_by snd item items) as [ln me].
  simpl in Hret. injection Hret as _ <- <- _.
  exists pre, post. split; [ rewrite Hsplit; reflexivity | ].
  split; assumption.
Qed.

Lemma X18_task1_leading_node_first_maximal_witness :
  exists pre post : list (nat * Q),
    uniform_centrality (1 # 2) star4 (Some 600%nat)
    = Ok (pre ++ (0%nat, 1 # 2) :: post)
    /\ (forall x : nat * Q, In x pre -> snd x < 1 # 2)
    /\ (forall x : nat * Q, In x post -> snd x <= 1 # 2).
Proof.
  apply (X18_task1_leading_node_first_maximal (uniform_centrality (1 # 2))
           star4 [] (1 # 2) (1 # 2) 2%Z
           (constant_source (1 # 4)) 0%nat 0%nat [0; 0] (1 # 2) 0%nat).
  vm_compute. reflexivity.
Defined.

(** ** The simulation loop *)

(** X19. On a graph without nodes, [simulate_spread] with [T >= 1] raises
    [ZeroDivisionError] at its first step in both files, before any draw
    and whatever the centrality computation would give. *)
Theorem X19_simulate_spread_empty_graph {node : Type} `{EqDec node}
  (eigenvector_centrality : Graph node -> option nat -> result (list (node * Q)))
  (G : Graph node) (G_type : string) (infected_nodes : list node)
  (beta gamma : Q) (T : Z) (rs : RandomSource) (k : nat) :
  nodes G = [] -> (1 <= T)%Z ->
  Main.simulate_spread eigenvector_centrality G G_type infected_nodes
    beta gamma T rs k = (Raise ZeroDivisionError, k) /\
  Task1.simulate_spread eigenvector_centrality G infected_nodes
    beta gamma T rs k = (Raise ZeroDivisionError, k).
Proof.
  intros Hnil HT.
  destruct (Z.to_nat T) as [ | T'] eqn:Hsteps; [ lia | ].
  unfold Main.simulate_spread, Task1.simulate_spread.
  rewrite Hsteps. simpl.
  unfold Main.update_status, Task1.update_status, bind, ret.
  rewrite Hnil. simpl. split; reflexivity.
Qed.

Lemma X19_simulate_spread_empty_graph_witness :
  Main.simulate_spread (uniform_centrality (1 # 2))
    {| nodes := @nil nat; neighbors := fun _ => [] |} "random" [0%nat]
    (1 # 2) (1 # 2) 10%Z (constant_source (1 # 4)) 0%nat
  = (Raise ZeroDivisionError, 0%nat) /\
  Task1.simulate_spread (uniform_centrality (1 # 2))
    {| nodes := @nil nat; neighbors := fun _ => [] |} [0%nat]
    (1 # 2) (1 # 2) 10%Z (constant_source (1 # 4)) 0%nat
  = (Raise ZeroDivisionError, 0%nat).
Proof.
  apply (X19_simulate_spread_empty_graph (uniform_centrality (1 # 2))
           {| nodes := @nil nat; neighbors := fun _ => [] |} "random"
           [0%nat] (1 # 2) (1 # 2) 10%Z (constant_source (1 # 4)) 0%nat).
  - reflexivity.
  - lia.
Defined.

(** X20. Running the simulation loop for [T1 + T2] steps is running it for
    [T1] steps and then for [T2] steps from the state, the trajectory and
    the draw index reached; an error of the first part ends the run. This
    holds in both files. *)
Theorem X20_spread_loop_composes {node : Type} `{EqDec node}
  (G : Graph node) (beta gamma : Q) (rs : RandomSource) (T1 T2 : nat)
  (infected_nodes : list node) (traj : list Q) (k : nat) :
  Main.spread_loop G beta gamma (T1 + T2) infected_nodes traj rs k
  = match Main.spread_loop G beta gamma T1 infected_nodes traj rs k with
    | (Ok (infected_nodes', traj'), k') =>
        Main.spread_loop G beta gamma T2 infected_nodes' traj' rs k'
    | (Raise e, k') => (Raise e, k')
    end
  /\
  Task1.spread_loop G beta gamma (T1 + T2) infected_nodes traj rs k
  = match Task1.spread_loop G beta gamma T1 infected_nodes traj rs k with
    | (Ok (infected_nodes', traj'), k') =>
        Task1.spread_loop G beta gamma T2 infected_nodes' traj' rs k'
    | (Raise e, k') => (Raise e, k')
    end.
Proof.
  split.
  - revert infected_nodes traj k.
    induction T1 as [ | T1 IH]; intros infected_nodes traj k; simpl.
    + reflexivity.
    + unfold bind.
      destruct (Main.update_status G infected_nodes beta gamma rs k)
        as [[[new p] | e] k1]; [ apply IH | reflexivity ].
  - revert infected_nodes traj k.
    induction T1 as [ | T1 IH]; intros infected_nodes traj k; simpl.
    + reflexivity.
    + unfold bind.
      destruct (Task1.update_status G infected_nodes beta gamma rs k)
        as [[[new p] | e] k1]; [ apply IH | reflexivity ].
Qed.
